(** * pytorch-introduction: the two notebooks, embedded and checked

    [tensor.ipynb] builds tensors and reshapes them; [neuralnet.ipynb] wires
    a model, two data loaders, an optimizer and a scheduler into a training
    and an evaluation loop and saves the result.

    Every number-crunching operation belongs to the framework (torch and
    torchvision), so the framework is an interface here, the class
    [Torch]: its numeric operations are left abstract, and the contract by
    which they touch state (gradient accumulation, gradient mode, random
    generator, files) is written out.  The notebook's own code is embedded
    on top of it, line by line, in an exception-and-state monad whose state
    records every framework call in order. *)

From Stdlib Require Import List Arith NArith Lia Bool String QArith Permutation.
Import ListNotations.

Set Implicit Arguments.
Set Warnings "-abstract-large-number".
Local Open Scope nat_scope.

(* ====================================================================== *)
(** * tensor.ipynb: shapes, views and flatten *)
(* ====================================================================== *)

Module Tensor.

Section Strided.

Context {A : Type}.

(** A dense tensor: a shape, one stride per dimension, and the storage the
    strides index.  Factory functions return contiguous (row-major)
    tensors; [view] and [.T] return tensors over the storage of their
    argument under another shape and other strides. *)
Record tensor : Type := Build_tensor {
  shape : list nat;
  stride : list nat;
  storage : list A
}.

(** Number of elements a shape announces. *)
Definition numel_of (sh : list nat) : nat := fold_right Nat.mul 1 sh.

(** [t.numel()]. *)
Definition numel (t : tensor) : nat := numel_of (shape t).

Definition ndim (t : tensor) : nat := List.length (shape t).

(** The strides of a fresh tensor of shape [sh]: each is the next one times
    the next size, a size of 0 counting as 1. *)
Fixpoint contiguous_strides (sh : list nat) : list nat :=
  match sh with
  | [] => []
  | _ :: sh' =>
      fold_right (fun d acc => Nat.max d 1 * acc) 1 sh' :: contiguous_strides sh'
  end.



(** Offset in the storage of a multi-index under strides, [None] when the
    index is out of bounds or of the wrong rank. *)
Fixpoint strided_offset (sh st idx : list nat) : option nat :=
  match sh, st, idx with
  | [], [], [] => Some 0
  | d :: sh', s :: st', i :: idx' =>
      if i <? d
      then match strided_offset sh' st' idx' with
           | Some o => Some (i * s + o)
           | None => None
           end
      else None
  | _, _, _ => None
  end.

(** [t[i, j, ...]]. *)
Definition item (t : tensor) (idx : list nat) : option A :=
  match strided_offset (shape t) (stride t) idx with
  | Some o => nth_error (storage t) o
  | None => None
  end.

(** What the storage must hold for a shape under strides: nothing when a
    size is 0, else one more than the offset of the last index. *)
Definition extent (sh st : list nat) : nat :=
  fold_right (fun p acc => (fst p - 1) * snd p + acc) 0 (combine sh st).

Definition storage_needed (sh st : list nat) : nat :=
  if numel_of sh =? 0 then 0 else S (extent sh st).

(** One stride per dimension, and a storage that holds every index. *)
Definition well_formed (t : tensor) : Prop :=
  List.length (stride t) = List.length (shape t) /\
  storage_needed (shape t) (stride t) <= List.length (storage t).

(** [torch.ones(shape)], with the element [one] of the dtype. *)
Definition full (sh : list nat) (x : A) : tensor :=
  Build_tensor sh (contiguous_strides sh) (repeat x (numel_of sh)).


(** Row-major position of a multi-index among the indices of a shape,
    [None] when out of bounds or of the wrong rank. *)
Fixpoint offset (sh idx : list nat) : option nat :=
  match sh, idx with
  | [], [] => Some 0
  | d :: sh', i :: idx' =>
      if i <? d
      then match offset sh' idx' with
           | Some o => Some (i * numel_of sh' + o)
           | None => None
           end
      else None
  | _, _ => None
  end.

(** The multi-index at row-major position [k]. *)
Fixpoint unravel (sh : list nat) (k : nat) : list nat :=
  match sh with
  | [] => []
  | _ :: sh' => k / numel_of sh' :: unravel sh' (k mod numel_of sh')
  end.

(** The strides of a view ([computeStride]).  The dimensions of the tensor
    are walked from the last to the first and cut into chunks that lie
    evenly spaced in the storage; each chunk must be filled exactly by
    dimensions of the view, taken from the last to the first too, whose
    strides are then multiples of the chunk's base stride. *)
Fixpoint consume (base tensor_numel view_numel : nat) (view acc : list nat)
  : nat * list nat * list nat :=
  match view with
  | [] => (view_numel, [], acc)
  | v :: view' =>
      if (view_numel <? tensor_numel) || (v =? 1)
      then consume base tensor_numel (view_numel * v) view'
             (view_numel * base :: acc)
      else (view_numel, view, acc)
  end.

Fixpoint chunks (dims : list (nat * nat)) (base tensor_numel view_numel : nat)
    (view acc : list nat) : option (list nat) :=
  match dims with
  | [] => match view with [] => Some acc | _ :: _ => None end
  | (d, _) :: dims' =>
      let tensor_numel := tensor_numel * d in
      let chunk_ends :=
        match dims' with
        | [] => true
        | (d', s') :: _ => negb (d' =? 1) && negb (s' =? tensor_numel * base)
        end in
      if chunk_ends
      then
        let '(view_numel', view', acc') :=
          consume base tensor_numel view_numel view acc in
        if view_numel' =? tensor_numel
        then match dims' with
             | [] => match view' with [] => Some acc' | _ :: _ => None end
             | (_, s') :: _ => chunks dims' s' 1 1 view' acc'
             end
        else None
      else chunks dims' base tensor_numel view_numel view acc
  end.

Definition compute_stride (oldshape oldstride newshape : list nat)
  : option (list nat) :=
  match rev (combine oldshape oldstride) with
  | [] => Some (repeat 1 (List.length newshape))
  | ((_, s) :: _) as dims =>
      if numel_of oldshape =? 0
      then if list_eq_dec Nat.eq_dec oldshape newshape
           then Some oldstride
           else Some (contiguous_strides newshape)
      else chunks dims s 1 1 (rev newshape) []
  end.

(** [t.view(sh)]: the same storage under a new shape.  A shape of another
    size is refused, and so is a shape the strides of [t] do not allow (a
    transposed matrix cannot be viewed under another shape); both are the
    framework's RuntimeError, [None] here. *)
Definition view (sh : list nat) (t : tensor) : option tensor :=
  if numel_of sh =? numel t
  then match compute_stride (shape t) (stride t) sh with
       | Some st => Some (Build_tensor sh st (storage t))
       | None => None
       end
  else None.

(** The elements in row-major order of their indices. *)
Definition elements (t : tensor) : list A :=
  flat_map (fun k => match item t (unravel (shape t) k) with
                     | Some x => [x]
                     | None => []
                     end)
    (seq 0 (numel t)).

(** [t.flatten()]: the rank-1 tensor of all elements, in row-major order,
    whatever the strides of [t]. *)
Definition flatten (t : tensor) : tensor :=
  Build_tensor [numel t] [1] (elements t).

End Strided.

Arguments tensor A : clear implicits.

(** The cell of the notebook: [a = torch.ones((3, 4))], [b = a.view(4, 3)],
    [c = b.view(2, 6)], [d = c.flatten()]. *)
Definition cell_a : tensor Q := full [3; 4] 1%Q.



End Tensor.

(* ====================================================================== *)
(** * neuralnet.ipynb, cell 2 and cell 5: the network and the model *)
(* ====================================================================== *)

Module Arch.

(** The layers [Net] is made of, with the constructor arguments the notebook
    passes: [nn.Conv2d(in, out, kernel, stride)], [nn.Dropout2d(p)],
    [nn.Linear(in, out)], and the functional calls of [forward]. *)
Inductive Layer : Type :=
| Conv2d (in_channels out_channels kernel_size stride : nat)
| ReLU
| MaxPool2d (kernel_size : nat)
| Dropout2d (p : Q)
| FlattenFrom (start_dim : nat)
| Linear (in_features out_features : nat).

(** [Net.__init__]. *)
Record NetLayers : Type := {
  conv1 : Layer;
  conv2 : Layer;
  dropout1 : Layer;
  dropout2 : Layer;
  fc1 : Layer;
  fc2 : Layer
}.

Definition Net_init : NetLayers := {|
  conv1 := Conv2d 3 32 3 1;
  conv2 := Conv2d 32 64 3 1;
  dropout1 := Dropout2d (1 # 4);
  dropout2 := Dropout2d (1 # 2);
  fc1 := Linear 12544 1024;
  fc2 := Linear 1024 100
|}.

(** [Net.forward]: the layers in the order [x] is passed through them (the
    closing [log_softmax] is commented out in the source). *)
Definition Net_forward (self : NetLayers) : list Layer :=
  [ conv1 self; ReLU;
    conv2 self; ReLU;
    MaxPool2d 2;
    dropout1 self;
    FlattenFrom 1;
    fc1 self; ReLU;
    dropout2 self;
    fc2 self ].

(** Output size of a sliding window without padding: [(n - k) / s + 1]. *)
Definition window (n k s : nat) : option nat :=
  if (k <=? n) && (0 <? k) && (0 <? s) then Some ((n - k) / s + 1) else None.

(** The shape a layer gives to an input of shape [sh] (batch dimension first),
    [None] where the framework raises a shape mismatch. *)
Definition layer_shape (l : Layer) (sh : list nat) : option (list nat) :=
  match l, sh with
  | Conv2d cin cout k s, [n; c; h; w] =>
      if c =? cin
      then match window h k s, window w k s with
           | Some h', Some w' => Some [n; cout; h'; w']
           | _, _ => None
           end
      else None
  | Conv2d _ _ _ _, _ => None
  | ReLU, _ => Some sh
  | MaxPool2d k, [n; c; h; w] =>
      match window h k k, window w k k with
      | Some h', Some w' => Some [n; c; h'; w']
      | _, _ => None
      end
  | MaxPool2d _, _ => None
  | Dropout2d _, _ => Some sh
  | FlattenFrom d, _ =>
      if d <? List.length sh
      then Some (firstn d sh ++ [fold_right Nat.mul 1 (skipn d sh)])
      else None
  | Linear fin fout, _ =>
      match rev sh with
      | last :: front => if last =? fin then Some (rev front ++ [fout]) else None
      | [] => None
      end
  end.

Fixpoint forward_shape (ls : list Layer) (sh : list nat) : option (list nat) :=
  match ls with
  | [] => Some sh
  | l :: ls' =>
      match layer_shape l sh with
      | Some sh' => forward_shape ls' sh'
      | None => None
      end
  end.

Definition is_conv (l : Layer) : bool :=
  match l with Conv2d _ _ _ _ => true | _ => false end.
Definition is_relu (l : Layer) : bool :=
  match l with ReLU => true | _ => false end.
Definition is_pool (l : Layer) : bool :=
  match l with MaxPool2d _ => true | _ => false end.
Definition is_dropout (l : Layer) : bool :=
  match l with Dropout2d _ => true | _ => false end.
Definition is_linear (l : Layer) : bool :=
  match l with Linear _ _ => true | _ => false end.

Definition count (f : Layer -> bool) (ls : list Layer) : nat :=
  List.length (filter f ls).

(** What cell 5 can bind [model] to: the notebook's own [Net()], or
    torchvision's [models.resnet18(pretrained=...)]. *)
Inductive ModelCtor : Type :=
| Net_ctor
| resnet18 (pretrained : bool).

(** Cell 5: [# model = Net()] is commented out and
    [model = models.resnet18(pretrained=False)] is what runs. *)
Definition model : ModelCtor := resnet18 false.

(** Size of the score vector a model returns per image: read off [fc2] for
    [Net]; for [resnet18] torchvision's default [num_classes=1000], the
    notebook passing none. *)
Definition num_classes (m : ModelCtor) : option nat :=
  match m with
  | Net_ctor =>
      match forward_shape (Net_forward Net_init) [1; 3; 32; 32] with
      | Some [_; c] => Some c
      | _ => None
      end
  | resnet18 _ => Some 1000
  end.

End Arch.

(* ====================================================================== *)
(** * neuralnet.ipynb: the framework as an interface *)
(* ====================================================================== *)

(** The transforms cell 4 composes, with their arguments. *)
Inductive Transform : Type :=
| ToTensor
| Normalize (mean std : Q * Q * Q)
| RandomResizedCrop (size : nat * nat) (antialias : bool)
| RandomVerticalFlip
| RandomHorizontalFlip
| ColorJitter.

(** A backward-computation link ([grad_fn]): what autograd recorded about how
    a tensor was computed.  The notebook computes two tracked tensors: the
    output of the model on an input (under the weights, buffers and generator
    state of that moment) and the loss of an output against a label batch. *)
Inductive Node (T B G : Type) : Type :=
| ModelBackward (m : Arch.ModelCtor) (training : bool)
    (weights : list T) (bufs : B) (g : G) (input : T)
| LossBackward (output : Node T B G) (label : list nat).

(** What the notebook asks of torch and torchvision.  The numerics are
    abstract; how each call uses and changes state is written out in
    [Module NN] below. *)
Class Torch : Type := {
  (** contents of a floating-point tensor *)
  T : Type;
  (** a Python float *)
  Float : Type;
  (** an image on its way through the transform chain *)
  Sample : Type;
  (** a module's buffers (batch-norm running statistics) *)
  Buffers : Type;
  (** state of the global random generator *)
  RNG : Type;
  (** exceptions *)
  Exn : Type;
  RuntimeError : Exn;
  IndexError : Exn;
  ZeroDivisionError : Exn;
  float_literal : Q -> Float;
  (** [torchvision.transforms.v2]: one transform applied to one image *)
  apply_transform : Transform -> Sample -> RNG -> Sample * RNG;
  (** [torch.randperm(n)], the order a [RandomSampler] draws *)
  randperm : nat -> RNG -> list nat * RNG;
  (** [default_collate]: stack the images of a batch *)
  stack : list Sample -> T;
  (** a freshly constructed module: randomly initialised weights, buffers *)
  module_init : Arch.ModelCtor -> RNG -> list T * Buffers * RNG;
  (** [model(input)], given [model.training], the weights, the buffers and
      the generator (dropout draws from it); returns the scores, the buffers
      after the pass and the generator *)
  module_forward :
    Arch.ModelCtor -> bool -> list T -> Buffers -> RNG -> T -> T * Buffers * RNG;
  (** [nn.CrossEntropyLoss()(output, label)] *)
  cross_entropy : T -> list nat -> T;
  (** gradient of a recorded computation in its [i]-th parameter *)
  autograd : Node T Buffers RNG -> nat -> T;
  (** tensor addition, by which [backward] accumulates into [.grad] *)
  tensor_add : T -> T -> T;
  (** one SGD-with-momentum update [lr momentum param grad buf], returning
      the new parameter and momentum buffer *)
  sgd_update : Float -> Float -> T -> T -> option T -> T * T;
  (** [CosineAnnealingLR]'s next rate [base_lr T_max last_epoch lr] *)
  cosine_annealing : Float -> nat -> nat -> Float -> Float;
  (** [output.argmax(dim=1, keepdim=True)], one class index per row *)
  argmax_dim1 : T -> list nat;
  (** [loss.item()] *)
  item : T -> Float
}.

Module NN.

Section State.

Context `{Torch}.

(* ---------------------------------------------------------------------- *)
(** ** State *)

(** A trainable parameter: its value, its gradient buffer [.grad] ([None]
    when empty) and the optimizer's state for it. *)
Record Param : Type := {
  data : T;
  grad : option T;
  momentum_buffer : option T
}.

(** A tensor that results from a tracked computation. *)
Record Var : Type := {
  value : T;
  grad_fn : option (Node T Buffers RNG)
}.

(** [model], an [nn.Module]. *)
Record Module_ : Type := {
  ctor : Arch.ModelCtor;
  parameters : list Param;
  buffers : Buffers;
  training : bool
}.

(** [optimizer], an [optim.SGD] over [model.parameters()]; its per-parameter
    state is [momentum_buffer]. *)
Record Optimizer : Type := {
  lr : Float;
  momentum : Float
}.

(** [scheduler], an [optim.lr_scheduler.CosineAnnealingLR]. *)
Record Scheduler : Type := {
  base_lr : Float;
  T_max : nat;
  last_epoch : nat
}.

(** What the CIFAR-100 archive holds. *)
Record Archive : Type := {
  train_images : list Sample;
  train_labels : list nat;
  test_images : list Sample;
  test_labels : list nat
}.

Inductive File : Type :=
| ArchiveFile (a : Archive)
| StateDictFile (weights : list T) (bufs : Buffers).

Inductive Line : Type :=
| LossLine (loss : Float)
| LossAccuracyLine (loss : Float) (accuracy : Q).

(** The notebook's globals and its surroundings: [model], [optimizer],
    [scheduler], the gradient mode, the random generator, the local disk (a
    log of writes, the latest binding of a path being the file) and the
    standard output. *)
Record World : Type := {
  model : Module_;
  optimizer : Optimizer;
  scheduler : Scheduler;
  grad_enabled : bool;
  generator : RNG;
  disk : list (string * File);
  stdout : list Line
}.

Definition with_model (m : Module_) (w : World) : World :=
  {| model := m; optimizer := optimizer w; scheduler := scheduler w;
     grad_enabled := grad_enabled w; generator := generator w;
     disk := disk w; stdout := stdout w |}.

Definition with_parameters (ps : list Param) (w : World) : World :=
  with_model {| ctor := ctor (model w); parameters := ps;
                buffers := buffers (model w); training := training (model w) |} w.

Definition with_buffers (bs : Buffers) (w : World) : World :=
  with_model {| ctor := ctor (model w); parameters := parameters (model w);
                buffers := bs; training := training (model w) |} w.

Definition with_optimizer (o : Optimizer) (w : World) : World :=
  {| model := model w; optimizer := o; scheduler := scheduler w;
     grad_enabled := grad_enabled w; generator := generator w;
     disk := disk w; stdout := stdout w |}.

Definition with_scheduler (s : Scheduler) (w : World) : World :=
  {| model := model w; optimizer := optimizer w; scheduler := s;
     grad_enabled := grad_enabled w; generator := generator w;
     disk := disk w; stdout := stdout w |}.

Definition with_grad_enabled (b : bool) (w : World) : World :=
  {| model := model w; optimizer := optimizer w; scheduler := scheduler w;
     grad_enabled := b; generator := generator w;
     disk := disk w; stdout := stdout w |}.

Definition with_generator (g : RNG) (w : World) : World :=
  {| model := model w; optimizer := optimizer w; scheduler := scheduler w;
     grad_enabled := grad_enabled w; generator := g;
     disk := disk w; stdout := stdout w |}.

Definition write_file (path : string) (f : File) (w : World) : World :=
  {| model := model w; optimizer := optimizer w; scheduler := scheduler w;
     grad_enabled := grad_enabled w; generator := generator w;
     disk := disk w ++ [(path, f)]; stdout := stdout w |}.

Definition print (l : Line) (w : World) : World :=
  {| model := model w; optimizer := optimizer w; scheduler := scheduler w;
     grad_enabled := grad_enabled w; generator := generator w;
     disk := disk w; stdout := stdout w ++ [l] |}.

(** The file at a path: the latest write to it. *)
Fixpoint read_file (path : string) (d : list (string * File)) : option File :=
  match d with
  | [] => None
  | (p, f) :: d' =>
      match read_file path d' with
      | Some f' => Some f'
      | None => if String.eqb p path then Some f else None
      end
  end.

(* ---------------------------------------------------------------------- *)
(** ** Framework calls, exceptions and their record *)

(** The framework calls the notebook makes. *)
Inductive Op : Type :=
| OpCIFAR100 (root : string) (train : bool)
| OpModel (m : Arch.ModelCtor)
| OpCrossEntropyLoss
| OpSGD
| OpCosineAnnealingLR
| OpIter
| OpNext
| OpForward
| OpCriterion
| OpBackward
| OpOptimizerStep
| OpZeroGrad
| OpSchedulerStep
| OpArgmax
| OpAccuracy
| OpPrint
| OpStateDict
| OpSave (path : string).

(** A run's state: the world, and every framework call made so far, in
    order, each with the exception it raised, if any. *)
Record State : Type := {
  world : World;
  trace : list (Op * option Exn)
}.

(** Failures that come from outside (the network is down, memory runs out)
    are a plan: the exception, if any, that the [n]-th framework call of the
    run meets. *)
Definition Plan : Type := nat -> option Exn.

Definition no_failure : Plan := fun _ => None.

(** Computations of the notebook: they read the plan, change the state, and
    return a value or raise. *)
Definition M (A : Type) : Type := Plan -> State -> (Exn + A) * State.

Definition ret {A} (a : A) : M A := fun _ st => (inr a, st).

Definition bind {A B} (m : M A) (k : A -> M B) : M B :=
  fun plan st =>
    match m plan st with
    | (inr a, st') => k a plan st'
    | (inl e, st') => (inl e, st')
    end.

Definition raised {A} (r : Exn + A) : option Exn :=
  match r with inl e => Some e | inr _ => None end.

(** One framework call: it meets the planned failure, if there is one, and
    otherwise does what the framework does, [f], which may raise by itself.
    Either way the call is recorded. *)
Definition call {A} (op : Op) (f : World -> (Exn + A) * World) : M A :=
  fun plan st =>
    match plan (List.length (trace st)) with
    | Some e =>
        (inl e, {| world := world st; trace := trace st ++ [(op, Some e)] |})
    | None =>
        let (r, w') := f (world st) in
        (r, {| world := w'; trace := trace st ++ [(op, raised r)] |})
    end.

(** [for i, x in enumerate(xs): body], counting from [i]. *)
Fixpoint for_enumerate {A} (i : nat) (xs : list A) (body : nat -> A -> M unit) : M unit :=
  match xs with
  | [] => ret tt
  | x :: xs' => bind (body i x) (fun _ => for_enumerate (S i) xs' body)
  end.

(** The decorator [@torch.no_grad()]: gradient mode is off while the
    function runs and back to what it was when it returns or raises. *)
Definition no_grad {A} (m : M A) : M A :=
  fun plan st =>
    let prev := grad_enabled (world st) in
    let (r, st') :=
      m plan {| world := with_grad_enabled false (world st); trace := trace st |} in
    (r, {| world := with_grad_enabled prev (world st'); trace := trace st' |}).

End State.

Declare Scope nb_scope.
Delimit Scope nb_scope with nb.
Notation "x <- m ;; k" := (bind m (fun x => k))
  (at level 100, m at next level, right associativity) : nb_scope.
Notation "' p <- m ;; k" := (bind m (fun x => match x with p => k end))
  (at level 100, p pattern, m at next level, right associativity) : nb_scope.
Notation "m ;; k" := (bind m (fun _ => k))
  (at level 100, right associativity) : nb_scope.

Section Data.

Context `{Torch}.

(* ---------------------------------------------------------------------- *)
(** ** Datasets and loaders (cell 4) *)

(** A [datasets.CIFAR100] object: the images and labels it loaded, and the
    transform it was given. *)
Record Dataset : Type := {
  images : list Sample;
  targets : list nat;
  transform_of : list Transform
}.

(** [len(dataset)]. *)
Definition len (self : Dataset) : nat := List.length (images self).

(** [v2.Compose(ts)(x)]: the transforms one after the other, each drawing
    from the generator as it needs. *)
Fixpoint compose (ts : list Transform) (x : Sample) (g : RNG) : Sample * RNG :=
  match ts with
  | [] => (x, g)
  | t :: ts' => let (x', g') := apply_transform t x g in compose ts' x' g'
  end.

(** [dataset[index]] (torchvision's [CIFAR100.__getitem__]): the stored image
    and label at [index], the image passed through the transform.  The
    method is given [self] and hands it back, as it leaves it; [None] is an
    IndexError. *)
Definition getitem (self : Dataset) (index : nat) (g : RNG)
  : option (Sample * nat) * Dataset * RNG :=
  match nth_error (images self) index, nth_error (targets self) index with
  | Some img, Some target =>
      let (img', g') := compose (transform_of self) img g in
      (Some (img', target), self, g')
  | _, _ => (None, self, g)
  end.

(** [[dataset[idx] for idx in batch]], the loader's fetcher. *)
Fixpoint fetch (self : Dataset) (batch : list nat) (g : RNG)
  : option (list (Sample * nat)) * Dataset * RNG :=
  match batch with
  | [] => (Some [], self, g)
  | idx :: batch' =>
      match getitem self idx g with
      | (Some it, self', g') =>
          match fetch self' batch' g' with
          | (Some its, self'', g'') => (Some (it :: its), self'', g'')
          | (None, self'', g'') => (None, self'', g'')
          end
      | (None, self', g') => (None, self', g')
      end
  end.

(** [default_collate]: one input tensor and one label tensor per batch. *)
Definition collate (items : list (Sample * nat)) : T * list nat :=
  (stack (map fst items), map snd items).

(** A [DataLoader] with the arguments the notebook gives ([drop_last] keeps
    its default, False). *)
Record DataLoader : Type := {
  dataset : Dataset;
  batch_size : nat;
  shuffle : bool
}.

(** [BatchSampler.__iter__]: indices are appended to [batch] as the sampler
    yields them; a full batch is yielded and a new one started; what is left
    at the end is yielded if it is not empty. *)
Fixpoint batch_sampler (size : nat) (batch : list nat) (sampler : list nat)
  : list (list nat) :=
  match sampler with
  | [] => if 0 <? List.length batch then [batch] else []
  | idx :: sampler' =>
      let batch' := batch ++ [idx] in
      if List.length batch' =? size
      then batch' :: batch_sampler size [] sampler'
      else batch_sampler size batch' sampler'
  end.

(** The order of one pass: a fresh [randperm] for a shuffling loader, else
    [range(len(dataset))]. *)
Definition sampler (dl : DataLoader) (g : RNG) : list nat * RNG :=
  if shuffle dl
  then randperm (len (dataset dl)) g
  else (seq 0 (len (dataset dl)), g).

(** The index batches of one pass. *)
Definition batches (dl : DataLoader) (g : RNG) : list (list nat) * RNG :=
  let (order, g') := sampler dl g in
  (batch_sampler (batch_size dl) [] order, g').

(** [len(dataloader)]: the number of batches, the last one possibly short. *)
Definition len_loader (dl : DataLoader) : nat :=
  (len (dataset dl) + batch_size dl - 1) / batch_size dl.

(** Cell 4, the transform. *)
Definition transform : list Transform :=
  [ ToTensor;
    Normalize (1 # 2, 1 # 2, 1 # 2) (1 # 2, 1 # 2, 1 # 2);
    RandomResizedCrop (32, 32) true;
    RandomVerticalFlip;
    RandomHorizontalFlip;
    ColorJitter ].

(** Cell 4, the loaders. *)
Definition train_loader (train_data : Dataset) : DataLoader :=
  {| dataset := train_data; batch_size := 8; shuffle := true |}.

Definition val_loader (val_data : Dataset) : DataLoader :=
  {| dataset := val_data; batch_size := 8; shuffle := false |}.

(** Where a dataset rooted at [root] keeps its archive. *)
Definition archive_path (root : string) : string :=
  (root ++ "/cifar-100-python.tar.gz")%string.

(** [datasets.CIFAR100(root, transform=tf, train=train, download=download)]:
    with [download] the archive is fetched unless it is already on disk;
    then the split asked for is loaded from disk. *)
Definition CIFAR100 (remote : Archive) (root : string) (tf : list Transform)
    (train download : bool) : M Dataset :=
  call (OpCIFAR100 root train) (fun w =>
    let w1 :=
      if download
      then match read_file (archive_path root) (disk w) with
           | Some _ => w
           | None => write_file (archive_path root) (ArchiveFile remote) w
           end
      else w in
    match read_file (archive_path root) (disk w1) with
    | Some (ArchiveFile a) =>
        (inr {| images := if train then train_images a else test_images a;
                targets := if train then train_labels a else test_labels a;
                transform_of := tf |}, w1)
    | _ => (inl RuntimeError, w1)
    end).

(** [iter(dataloader)]: the sampler fixes the order of the pass. *)
Definition iter (dl : DataLoader) : M (list (list nat)) :=
  call OpIter (fun w =>
    let (bs, g') := batches dl (generator w) in
    (inr bs, with_generator g' w)).

(** [next(iterator)]: fetch the items of the next index batch and collate
    them.  The loader keeps its dataset, which [getitem] hands back as it
    was. *)
Definition next (dl : DataLoader) (batch : list nat) : M (T * list nat) :=
  call OpNext (fun w =>
    match fetch (dataset dl) batch (generator w) with
    | (Some items, _, g') => (inr (collate items), with_generator g' w)
    | (None, _, g') => (inl IndexError, with_generator g' w)
    end).

End Data.

Section Code.

Context `{Torch}.

(* ---------------------------------------------------------------------- *)
(** ** Model, loss, autograd, optimizer and scheduler calls *)

(** [models.resnet18(pretrained=False)] or [Net()]: a module in training
    mode, no gradient in any buffer, no optimizer state yet. *)
Definition construct (m : Arch.ModelCtor) : M unit :=
  call (OpModel m) (fun w =>
    let '(ws, bs, g') := module_init m (generator w) in
    (inr tt,
     with_generator g'
       (with_model {| ctor := m;
                      parameters :=
                        map (fun x => {| data := x; grad := None;
                                         momentum_buffer := None |}) ws;
                      buffers := bs;
                      training := true |} w))).

(** [nn.CrossEntropyLoss()]: the criterion has no state. *)
Definition CrossEntropyLoss : M unit :=
  call OpCrossEntropyLoss (fun w => (inr tt, w)).

(** [optim.SGD(model.parameters(), lr=l, momentum=m)]. *)
Definition SGD (l m : Q) : M unit :=
  call OpSGD (fun w =>
    (inr tt,
     with_optimizer {| lr := float_literal l; momentum := float_literal m |} w)).

(** [optim.lr_scheduler.CosineAnnealingLR(optimizer, T_max=tmax)]. *)
Definition CosineAnnealingLR (tmax : nat) : M unit :=
  call OpCosineAnnealingLR (fun w =>
    (inr tt,
     with_scheduler {| base_lr := lr (optimizer w); T_max := tmax;
                       last_epoch := 0 |} w)).

(** [model(input)]: the forward pass.  A module in training mode updates
    its buffers; the output carries a backward link only in gradient mode. *)
Definition model_call (input : T) : M Var :=
  call OpForward (fun w =>
    let m := model w in
    let ws := map data (parameters m) in
    let '(out, bs', g') :=
      module_forward (ctor m) (training m) ws (buffers m) (generator w) input in
    (inr {| value := out;
            grad_fn :=
              if grad_enabled w
              then Some (ModelBackward (ctor m) (training m) ws (buffers m)
                           (generator w) input)
              else None |},
     with_generator g' (with_buffers bs' w))).

(** [criterion(output, label)]. *)
Definition criterion (output : Var) (label : list nat) : M Var :=
  call OpCriterion (fun w =>
    (inr {| value := cross_entropy (value output) label;
            grad_fn :=
              if grad_enabled w
              then match grad_fn output with
                   | Some n => Some (LossBackward n label)
                   | None => None
                   end
              else None |},
     w)).

(** What [backward] does to one gradient buffer: it fills an empty one and
    adds to a filled one. *)
Definition accumulate (p : Param) (g : T) : Param :=
  {| data := data p;
     grad := match grad p with
             | None => Some g
             | Some g0 => Some (tensor_add g0 g)
             end;
     momentum_buffer := momentum_buffer p |}.

Fixpoint accumulate_from (i : nat) (n : Node T Buffers RNG) (ps : list Param)
  : list Param :=
  match ps with
  | [] => []
  | p :: ps' => accumulate p (autograd n i) :: accumulate_from (S i) n ps'
  end.

(** [loss.backward()]: a tensor without backward link raises; else every
    parameter's gradient is accumulated into its buffer. *)
Definition backward (loss : Var) : M unit :=
  call OpBackward (fun w =>
    match grad_fn loss with
    | None => (inl RuntimeError, w)
    | Some n =>
        (inr tt, with_parameters (accumulate_from 0 n (parameters (model w))) w)
    end).

(** SGD on one parameter: skipped when its gradient buffer is empty. *)
Definition sgd_param (o : Optimizer) (p : Param) : Param :=
  match grad p with
  | None => p
  | Some g =>
      let (d, b) := sgd_update (lr o) (momentum o) (data p) g (momentum_buffer p) in
      {| data := d; grad := grad p; momentum_buffer := Some b |}
  end.

(** [optimizer.step()]. *)
Definition optimizer_step : M unit :=
  call OpOptimizerStep (fun w =>
    (inr tt,
     with_parameters (map (sgd_param (optimizer w)) (parameters (model w))) w)).

Definition reset_grad (p : Param) : Param :=
  {| data := data p; grad := None; momentum_buffer := momentum_buffer p |}.

(** [optimizer.zero_grad()]: every gradient buffer is emptied. *)
Definition optimizer_zero_grad : M unit :=
  call OpZeroGrad (fun w =>
    (inr tt, with_parameters (map reset_grad (parameters (model w))) w)).

(** [scheduler.step()]: one more epoch counted, the optimizer's learning
    rate set to the schedule's next value. *)
Definition scheduler_step : M unit :=
  call OpSchedulerStep (fun w =>
    let s := scheduler w in
    let e := S (last_epoch s) in
    (inr tt,
     with_optimizer
       {| lr := cosine_annealing (base_lr s) (T_max s) e (lr (optimizer w));
          momentum := momentum (optimizer w) |}
       (with_scheduler {| base_lr := base_lr s; T_max := T_max s;
                          last_epoch := e |} w))).

(** [print(...)]. *)
Definition print_line (l : Line) : M unit :=
  call OpPrint (fun w => (inr tt, print l w)).

(** [output.argmax(dim=1, keepdim=True)]. *)
Definition argmax (output : Var) : M (list nat) :=
  call OpArgmax (fun w => (inr (argmax_dim1 (value output)), w)).

(** [pred.eq(label.view_as(pred)).sum().item()]: the number of positions at
    which prediction and label agree. *)
Definition correct (pred label : list nat) : nat :=
  List.length (filter (fun pl => fst pl =? snd pl) (combine pred label)).

(** [pred.eq(label.view_as(pred)).sum().item() / len(label)]: [view_as]
    raises when the sizes differ, the division when the batch is empty. *)
Definition accuracy_of (pred label : list nat) : Exn + Q :=
  if List.length pred =? List.length label
  then match List.length label with
       | 0 => inl ZeroDivisionError
       | S _ => inr (Z.of_nat (correct pred label) # Pos.of_nat (List.length label))
       end
  else inl RuntimeError.

Definition accuracy_call (pred label : list nat) : M Q :=
  call OpAccuracy (fun w => (accuracy_of pred label, w)).

(** [model.state_dict()]: the weights and the buffers. *)
Definition state_dict : M (list T * Buffers) :=
  call OpStateDict (fun w =>
    (inr (map data (parameters (model w)), buffers (model w)), w)).

(** [torch.save(obj, path)]. *)
Definition save (obj : list T * Buffers) (path : string) : M unit :=
  call (OpSave path) (fun w =>
    (inr tt, write_file path (StateDictFile (fst obj) (snd obj)) w)).

(* ---------------------------------------------------------------------- *)
(** ** The notebook's functions (cells 6 and 7) *)

Local Open Scope nb_scope.

Definition train_step (input : T) (label : list nat) : M (Var * Var) :=
  output <- model_call input ;;
  loss <- criterion output label ;;
  backward loss ;;
  optimizer_step ;;
  optimizer_zero_grad ;;
  scheduler_step ;;
  ret (loss, output).

Definition train_body (dataloader : DataLoader) (i : nat) (batch : list nat) : M unit :=
  ' (input, label) <- next dataloader batch ;;
  ' (loss, output) <- train_step input label ;;
  if i mod 100 =? 0
  then print_line (LossLine (item (value loss)))
  else ret tt.

Definition train_epoch (dataloader : DataLoader) : M unit :=
  bs <- iter dataloader ;;
  for_enumerate 0 bs (train_body dataloader).

Definition evaluate_step (input : T) (label : list nat) : M (Var * Var) :=
  no_grad
    (output <- model_call input ;;
     loss <- criterion output label ;;
     ret (loss, output)).

Definition evaluate_body (dataloader : DataLoader) (i : nat) (batch : list nat) : M unit :=
  ' (input, label) <- next dataloader batch ;;
  ' (loss, output) <- evaluate_step input label ;;
  pred <- argmax output ;;
  accuracy <- accuracy_call pred label ;;
  if i mod 100 =? 0
  then print_line (LossAccuracyLine (item (value loss)) accuracy)
  else ret tt.

Definition evaluate_epoch (dataloader : DataLoader) : M unit :=
  bs <- iter dataloader ;;
  for_enumerate 0 bs (evaluate_body dataloader).

(* ---------------------------------------------------------------------- *)
(** ** The cells, top to bottom *)

Definition cell4 (remote : Archive) : M (DataLoader * DataLoader) :=
  train_data <- CIFAR100 remote "cifar100" transform true true ;;
  val_data <- CIFAR100 remote "cifar100" transform false true ;;
  ret (train_loader train_data, val_loader val_data).

Definition cell5 (train_loader : DataLoader) : M unit :=
  construct Arch.model ;;
  CrossEntropyLoss ;;
  SGD (1 # 1000) (9 # 10) ;;
  CosineAnnealingLR (len_loader train_loader).

Definition cell6 (train_loader : DataLoader) : M unit :=
  train_epoch train_loader.

Definition cell7 (val_loader : DataLoader) : M unit :=
  evaluate_epoch val_loader.

Definition cell8 : M unit :=
  sd <- state_dict ;;
  save sd "model.pth".

Definition workflow (remote : Archive) : M unit :=
  ' (train_loader, val_loader) <- cell4 remote ;;
  cell5 train_loader ;;
  cell6 train_loader ;;
  cell7 val_loader ;;
  cell8.

End Code.

End NN.

(* ====================================================================== *)
(** * A small framework to run the notebook on *)
(* ====================================================================== *)

(** Integers for tensor contents, one number per row of a batch; the
    generator is a counter; a flip negates an image when the counter is
    odd.  Enough to execute every definition above on concrete inputs. *)
Module Toy.

Import NN.

Definition total (xs : list Z) : Z := fold_right Z.add 0%Z xs.

Definition toy_transform (t : Transform) (x : Z) (g : nat) : Z * nat :=
  match t with
  | ToTensor => (x, g)
  | Normalize _ _ => ((2 * x - 1)%Z, g)
  | RandomResizedCrop _ _ => ((x + Z.of_nat g)%Z, S g)
  | RandomVerticalFlip => (if Nat.even g then x else (- x)%Z, S g)
  | RandomHorizontalFlip => (if Nat.even g then x else (- x)%Z, S g)
  | ColorJitter => (x, S g)
  end.

Definition toy_forward (m : Arch.ModelCtor) (training : bool)
    (ws : list (list Z)) (bs : nat) (g : nat) (input : list Z)
  : list Z * nat * nat :=
  (map (fun x => (x + total (map total ws))%Z) input,
   if training then S bs else bs,
   g).

#[local] Instance toy : Torch := {|
  T := list Z;
  Float := Q;
  Sample := Z;
  Buffers := nat;
  RNG := nat;
  Exn := string;
  RuntimeError := "RuntimeError"%string;
  IndexError := "IndexError"%string;
  ZeroDivisionError := "ZeroDivisionError"%string;
  float_literal := fun q => q;
  apply_transform := toy_transform;
  randperm := fun n g => (rev (seq 0 n), S g);
  stack := fun xs => xs;
  module_init := fun _ g => ([[1%Z]; [2%Z]], 0, S g);
  module_forward := toy_forward;
  cross_entropy := fun out label => [(total out + Z.of_nat (List.length label))%Z];
  autograd := fun n i =>
    match n with
    | LossBackward _ label => [Z.of_nat (i + List.length label)]
    | ModelBackward _ _ _ _ _ _ => [Z.of_nat i]
    end;
  tensor_add := fun a b => map (fun ab => (fst ab + snd ab)%Z) (combine a b);
  sgd_update := fun lr mom p g buf => (map (fun pg => (fst pg - snd pg)%Z) (combine p g), g);
  cosine_annealing := fun base tmax e lr => (lr * (1 # 2))%Q;
  argmax_dim1 := fun out => map (fun z => Z.to_nat (z mod 100)) out;
  item := fun t => inject_Z (total t)
|}.

(** A world before any cell has run: nothing on disk, nothing printed, no
    model to speak of. *)
Definition boot : State :=
  {| world :=
       {| model := {| ctor := Arch.Net_ctor; parameters := [];
                      buffers := 0; training := true |};
          optimizer := {| lr := 0%Q; momentum := 0%Q |};
          scheduler := {| base_lr := 0%Q; T_max := 0; last_epoch := 0 |};
          grad_enabled := true;
          generator := 0;
          disk := [];
          stdout := [] |};
     trace := [] |}.

(** An archive of ten training and three test images. *)
Definition remote : Archive :=
  {| train_images := [1; 2; 3; 4; 5; 6; 7; 8; 9; 10]%Z;
     train_labels := [0; 1; 2; 3; 4; 5; 6; 7; 8; 9];
     test_images := [11; 12; 13]%Z;
     test_labels := [1; 37; 2] |}.

Definition one_item : Dataset :=
  {| images := [5%Z]; targets := [7]; transform_of := transform |}.



(** The validation loader over the archive's test split. *)
Definition vl : DataLoader :=
  val_loader {| images := test_images remote;
                targets := test_labels remote;
                transform_of := transform |}.

(** The training loader over the archive's training split, and the states a
    run without failures goes through up to its second training step: after
    cell 5, after [iter], after the first pass of the loop body, after the
    second batch was fetched. *)
Definition tl : DataLoader :=
  train_loader {| images := train_images remote;
                  targets := train_labels remote;
                  transform_of := transform |}.

Definition first_batch : list nat := [9; 8; 7; 6; 5; 4; 3; 2].
Definition second_batch : list nat := [1; 0].

Definition after_cell5 : State := snd (cell5 tl no_failure boot).
Definition after_iter : State := snd (iter tl no_failure after_cell5).
Definition after_first_step : State :=
  snd (for_enumerate 0 [first_batch] (train_body tl) no_failure after_iter).
Definition second_fetch : (Exn + (T * list nat)) * State :=
  next tl second_batch no_failure after_first_step.

End Toy.

(* ====================================================================== *)
(** * Properties of tensor.ipynb *)
(* ====================================================================== *)

Module TensorFacts.

Import Tensor.

Section Indexing.

Context {A : Type}.

Lemma offset_matrix (r c i j : nat) :
  i < r -> j < c -> offset [r; c] [i; j] = Some (i * c + j).
Proof.
  intros Hi Hj. simpl.
  apply Nat.ltb_lt in Hi. apply Nat.ltb_lt in Hj. rewrite Hi, Hj.
  rewrite !Nat.mul_1_r, Nat.add_0_r. reflexivity.
Qed.

Lemma offset_vector (n k : nat) : k < n -> offset [n] [k] = Some k.
Proof.
  intros Hk. simpl. apply Nat.ltb_lt in Hk. rewrite Hk.
  f_equal. lia.
Qed.

(** A position that [offset] grants lies inside what the shape announces. *)
Lemma offset_in_bounds (sh idx : list nat) (o : nat) :
  offset sh idx = Some o -> o < numel_of sh.
Proof.
  revert idx o. induction sh as [|d sh IH]; intros [|i idx] o E; simpl in E;
    try discriminate.
  - injection E as <-. simpl. lia.
  - destruct (i <? d) eqn:L; [|discriminate].
    destruct (offset sh idx) as [o'|] eqn:O; [|discriminate].
    injection E as <-. apply Nat.ltb_lt in L. specialize (IH _ _ O).
    simpl. nia.
Qed.

(** Only shapes without a zero have an index in bounds. *)
Lemma offset_positive (sh idx : list nat) (o : nat) :
  offset sh idx = Some o -> Forall (fun d => 0 < d) sh.
Proof.
  revert idx o. induction sh as [|d sh IH]; intros [|i idx] o E; simpl in E;
    try discriminate.
  - constructor.
  - destruct (i <? d) eqn:L; [|discriminate].
    destruct (offset sh idx) as [o'|] eqn:O; [|discriminate].
    apply Nat.ltb_lt in L. constructor; [lia | eapply IH; exact O].
Qed.

Lemma numel_positive (sh : list nat) :
  Forall (fun d => 0 < d) sh ->
  fold_right (fun d acc => Nat.max d 1 * acc) 1 sh = numel_of sh.
Proof.
  induction 1 as [|d sh Hd _ IH]; simpl; [reflexivity|].
  rewrite IH. rewrite Nat.max_l by lia. reflexivity.
Qed.

(** Under the strides of a fresh tensor an index sits at its row-major
    position. *)
Lemma strided_offset_contiguous (sh idx : list nat) :
  strided_offset sh (contiguous_strides sh) idx = offset sh idx.
Proof.
  revert idx. induction sh as [|d sh IH]; intros [|i idx]; simpl;
    try reflexivity.
  destruct (i <? d); [|reflexivity].
  rewrite IH. destruct (offset sh idx) as [o|] eqn:O; [|reflexivity].
  rewrite numel_positive by (eapply offset_positive; exact O). reflexivity.
Qed.

(** The index at row-major position [k] is in bounds, at position [k]. *)
Lemma offset_unravel (sh : list nat) (k : nat) :
  k < numel_of sh -> offset sh (unravel sh k) = Some k.
Proof.
  revert k. induction sh as [|d sh IH]; intros k Hk; simpl in *.
  - f_equal. lia.
  - set (m := numel_of sh) in *.
    assert (Hm : m <> 0) by (intros Z; rewrite Z in Hk; lia).
    assert (Hq : k / m < d).
    { apply Nat.Div0.div_lt_upper_bound. lia. }
    apply Nat.ltb_lt in Hq. rewrite Hq.
    rewrite IH by (apply Nat.mod_upper_bound; exact Hm).
    f_equal. pose proof (Nat.div_mod_eq k m). lia.
Qed.

(** And it is the only index there. *)
Lemma unravel_offset (sh idx : list nat) (k : nat) :
  offset sh idx = Some k -> unravel sh k = idx.
Proof.
  revert idx k. induction sh as [|d sh IH]; intros [|i idx] k E; simpl in E;
    try discriminate.
  - reflexivity.
  - destruct (i <? d); [|discriminate].
    destruct (offset sh idx) as [o|] eqn:O; [|discriminate].
    injection E as <-. simpl.
    pose proof (offset_in_bounds _ _ O) as B.
    assert (Q : (i * numel_of sh + o) / numel_of sh = i).
    { symmetry. apply Nat.div_unique with o; [exact B | lia]. }
    assert (R : (i * numel_of sh + o) mod numel_of sh = o).
    { symmetry. apply Nat.mod_unique with i; [exact B | lia]. }
    rewrite Q, R. f_equal. apply IH. exact O.
Qed.

(** Whether an index is in bounds does not depend on the strides. *)
Lemma strided_offset_some (sh st idx : list nat) (k : nat) :
  List.length st = List.length sh ->
  offset sh idx = Some k ->
  exists o, strided_offset sh st idx = Some o.
Proof.
  revert st idx k. induction sh as [|d sh IH]; intros [|s st] [|i idx] k L E;
    simpl in *; try discriminate.
  - exists 0. reflexivity.
  - destruct (i <? d); [|discriminate].
    destruct (offset sh idx) as [o'|] eqn:O; [|discriminate].
    injection L as L. destruct (IH st idx o' L O) as [o Ho]. rewrite Ho.
    eexists. reflexivity.
Qed.

Definition option_list (o : option A) : list A :=
  match o with Some x => [x] | None => [] end.

Lemma flat_map_singletons (h : nat -> option A) (n s k : nat) :
  (forall m, m < n -> h (s + m) <> None) ->
  k < n ->
  nth_error (flat_map (fun m => option_list (h m)) (seq s n)) k = h (s + k).
Proof.
  revert s k. induction n as [|n IH]; intros s k Hh Hk; [lia|].
  simpl. pose proof (Hh 0 ltac:(lia)) as H0. rewrite Nat.add_0_r in H0.
  destruct (h s) as [x|] eqn:E; [|contradiction H0; reflexivity].
  simpl. destruct k as [|k]; simpl.
  - rewrite Nat.add_0_r. symmetry. exact E.
  - rewrite IH.
    + f_equal. lia.
    + intros m Hm. replace (S s + m) with (s + S m) by lia. apply Hh. lia.
    + lia.
Qed.


Lemma strided_offset_bound (sh st idx : list nat) (o : nat) :
  strided_offset sh st idx = Some o ->
  numel_of sh <> 0 /\ o <= extent sh st.
Proof.
  revert st idx o.
  induction sh as [|d sh IH]; intros [|s st] [|i idx] o E; simpl in E;
    try discriminate.
  - injection E as <-. simpl. lia.
  - destruct (i <? d) eqn:L; [|discriminate].
    destruct (strided_offset sh st idx) as [o'|] eqn:O; [|discriminate].
    injection E as <-. apply Nat.ltb_lt in L.
    destruct (IH _ _ _ O) as [N B]. unfold extent in *. simpl. split.
    + nia.
    + assert (i * s <= (d - 1) * s) by (apply Nat.mul_le_mono_r; lia). lia.
Qed.

(** In a well-formed tensor every index in bounds is in the storage. *)
Lemma well_formed_in_bounds (t : tensor A) (idx : list nat) (o : nat) :
  well_formed t ->
  strided_offset (shape t) (stride t) idx = Some o ->
  o < List.length (storage t).
Proof.
  intros [_ W] E. destruct (strided_offset_bound _ _ _ E) as [N B].
  unfold storage_needed in W. apply Nat.eqb_neq in N. rewrite N in W. lia.
Qed.

Lemma numel_nonzero (sh : list nat) :
  numel_of sh <> 0 -> Forall (fun d => 0 < d) sh.
Proof.
  induction sh as [|d sh IH]; simpl; intros N; constructor.
  - destruct d; [contradiction N; reflexivity | lia].
  - apply IH. intros Z. rewrite Z in N. lia.
Qed.

Lemma contiguous_strides_length (sh : list nat) :
  List.length (contiguous_strides sh) = List.length sh.
Proof.
  induction sh as [|d sh IH]; simpl; [reflexivity | f_equal; exact IH].
Qed.

Lemma extent_contiguous (sh : list nat) :
  Forall (fun d => 0 < d) sh ->
  S (extent sh (contiguous_strides sh)) = numel_of sh.
Proof.
  induction 1 as [|d sh Hd Hsh IH]; [reflexivity|].
  unfold extent in *. simpl. rewrite (numel_positive Hsh).
  destruct d; [lia|]. simpl. rewrite Nat.sub_0_r. lia.
Qed.

(** A fresh tensor is well-formed. *)
Lemma full_well_formed (sh : list nat) (x : A) : well_formed (full sh x).
Proof.
  split; simpl; [apply contiguous_strides_length|].
  rewrite repeat_length. unfold storage_needed.
  destruct (numel_of sh =? 0) eqn:N; [lia|].
  apply Nat.eqb_neq in N. rewrite (extent_contiguous (numel_nonzero _ N)).
  lia.
Qed.

(** In a well-formed tensor the index at every position holds an element. *)
Lemma item_unravel (t : tensor A) (k : nat) :
  well_formed t -> k < numel t ->
  exists x, item t (unravel (shape t) k) = Some x.
Proof.
  intros W Hk. unfold item.
  destruct (@strided_offset_some (shape t) (stride t) _ k (proj1 W)
              (@offset_unravel (shape t) k Hk)) as [o Ho].
  rewrite Ho. pose proof (well_formed_in_bounds _ W Ho) as B.
  destruct (nth_error (storage t) o) as [x|] eqn:E.
  - exists x. reflexivity.
  - apply nth_error_None in E. lia.
Qed.

(** The elements of a well-formed tensor: as many as [numel], the [k]-th
    being the element at the index of row-major position [k]. *)
Lemma elements_nth (t : tensor A) (k : nat) :
  well_formed t -> k < numel t ->
  nth_error (elements t) k = item t (unravel (shape t) k).
Proof.
  intros W Hk. unfold elements.
  change (fun k0 => match item t (unravel (shape t) k0) with
                    | Some x => [x] | None => [] end)
    with (fun k0 => option_list (item t (unravel (shape t) k0))).
  rewrite flat_map_singletons; [reflexivity | | exact Hk].
  intros m Hm. cbn [Nat.add]. destruct (@item_unravel t m W Hm) as [x ->].
  discriminate.
Qed.



(** The element at position [k] of a flattened well-formed tensor. *)
Lemma item_flatten (t : tensor A) (k : nat) :
  well_formed t -> k < numel t ->
  item (flatten t) [k] = item t (unravel (shape t) k).
Proof.
  intros W Hk. unfold item at 1. unfold flatten. simpl.
  apply Nat.ltb_lt in Hk. rewrite Hk. apply Nat.ltb_lt in Hk.
  replace (k * 1 + 0) with k by lia. apply elements_nth; assumption.
Qed.





End Indexing.




End TensorFacts.

(* ====================================================================== *)
(** * Properties of neuralnet.ipynb *)
(* ====================================================================== *)

Module Run.

Import NN.

Section Inversion.

Context `{Torch}.

(** How a run that returned got there. *)
Lemma bind_inr {A B} (m : M A) (k : A -> M B) plan st b st' :
  bind m k plan st = (inr b, st') ->
  exists a st1, m plan st = (inr a, st1) /\ k a plan st1 = (inr b, st').
Proof.
  unfold bind. destruct (m plan st) as [[e | a] st1]; [discriminate|].
  intros E. exists a, st1. split; [reflexivity | exact E].
Qed.

Lemma call_inr {A} op (f : World -> (Exn + A) * World) plan st a st' :
  call op f plan st = (inr a, st') ->
  plan (List.length (trace st)) = None /\
  exists w', f (world st) = (inr a, w') /\
             st' = {| world := w'; trace := trace st ++ [(op, None)] |}.
Proof.
  unfold call. destruct (plan (List.length (trace st))); [discriminate|].
  destruct (f (world st)) as [[e | a'] w']; [discriminate|].
  intros E. injection E as <- <-. split; [reflexivity|].
  exists w'. split; reflexivity.
Qed.

Lemma ret_inr {A} (a b : A) plan st st' :
  ret a plan st = (inr b, st') -> b = a /\ st' = st.
Proof.
  unfold ret. intros E. injection E as <- <-. split; reflexivity.
Qed.

Lemma no_grad_inr {A} (m : M A) plan st a st' :
  no_grad m plan st = (inr a, st') ->
  exists st1,
    m plan {| world := with_grad_enabled false (world st); trace := trace st |}
      = (inr a, st1) /\
    st' = {| world := with_grad_enabled (grad_enabled (world st)) (world st1);
             trace := trace st1 |}.
Proof.
  unfold no_grad.
  destruct (m plan _) as [r st1]. intros E. injection E as -> <-.
  exists st1. split; reflexivity.
Qed.

End Inversion.

(** Take a successful run apart, call by call. *)
Ltac run_inv :=
  repeat match goal with
  | E : bind _ _ _ _ = (inr _, _) |- _ =>
      let a := fresh "a" in let st := fresh "st" in
      let E1 := fresh "E" in let E2 := fresh "E" in
      apply bind_inr in E; destruct E as (a & st & E1 & E2)
  | E : ret _ _ _ = (inr _, _) |- _ =>
      apply ret_inr in E; destruct E; subst
  | E : (match ?x with (_, _) => _ end) _ _ = (inr _, _) |- _ => destruct x
  end.

(** Take the successful framework calls among the hypotheses apart. *)
Ltac call_inv :=
  repeat match goal with
  | E : call _ _ _ _ = (inr _, _) |- _ =>
      let w := fresh "w" in let F := fresh "F" in
      apply call_inr in E; destruct E as (_ & w & F & ?); simpl in F
  end.

Ltac pair_inv :=
  repeat match goal with
  | F : (inr _, _) = (inr _, _) |- _ => inversion F; clear F; subst
  end.

End Run.

(* ---------------------------------------------------------------------- *)
(** ** Exceptions are not handled (section 7 of the specification) *)

Module Failures.

Import NN Run.

Section Propagation.

Context `{Torch}.

(** A recorded call that raised nothing. *)
Definition quiet (c : Op * option Exn) : Prop := snd c = None.

(** The calls [new], made from call number [start] on, met the plan: a call
    for which the plan holds an exception is recorded as raising it. *)
Definition met (plan : Plan) (start : nat) (new : list (Op * option Exn)) : Prop :=
  forall k op o e,
    nth_error new k = Some (op, o) -> plan (start + k) = Some e -> o = Some e.

(** The result against the calls made: a run raises [e] exactly when its
    last call raised [e], every call before it was quiet, and nothing was
    called afterwards; it returns only if every call was quiet. *)
Definition outcome {A} (r : Exn + A) (new : list (Op * option Exn)) : Prop :=
  match r with
  | inl e => exists pre op, new = pre ++ [(op, Some e)] /\ Forall quiet pre
  | inr _ => Forall quiet new
  end.

(** [m] handles no exception: whatever a framework call raises inside it
    ends it there and is what it raises. *)
Definition Propagates {A} (m : M A) : Prop :=
  forall plan st, exists new,
    trace (snd (m plan st)) = trace st ++ new /\
    met plan (List.length (trace st)) new /\
    outcome (fst (m plan st)) new.

Lemma met_nil plan start : met plan start [].
Proof.
  intros k op o e E. destruct k; discriminate E.
Qed.

Lemma met_one plan start op o :
  (forall e, plan start = Some e -> o = Some e) -> met plan start [(op, o)].
Proof.
  intros Ho k op' o' e E P.
  destruct k as [|k]; simpl in E.
  - injection E as <- <-. rewrite Nat.add_0_r in P. auto.
  - destruct k; discriminate E.
Qed.

Lemma met_app plan start new1 new2 :
  met plan start new1 ->
  met plan (start + List.length new1) new2 ->
  met plan start (new1 ++ new2).
Proof.
  intros M1 M2 k op o e E P.
  destruct (Nat.lt_ge_cases k (List.length new1)) as [L | L].
  - rewrite nth_error_app1 in E by exact L. eauto.
  - rewrite nth_error_app2 in E by exact L.
    apply (M2 _ _ _ _ E).
    replace (start + List.length new1 + (k - List.length new1)) with (start + k) by lia.
    exact P.
Qed.

Lemma Propagates_ret {A} (a : A) : Propagates (ret a).
Proof.
  intros plan st. exists []. simpl. rewrite app_nil_r.
  split; [reflexivity|]. split; [apply met_nil | constructor].
Qed.

Lemma Propagates_call {A} op (f : World -> (Exn + A) * World) :
  Propagates (call op f).
Proof.
  intros plan st. unfold call.
  destruct (plan (List.length (trace st))) as [e|] eqn:P.
  - exists [(op, Some e)]. simpl. split; [reflexivity|]. split.
    + apply met_one. intros e' E. congruence.
    + exists [], op. split; [reflexivity | constructor].
  - destruct (f (world st)) as [r w'].
    exists [(op, raised r)]. simpl. split; [reflexivity|]. split.
    + apply met_one. intros e' E. congruence.
    + destruct r as [e | a]; simpl.
      * exists [], op. split; [reflexivity | constructor].
      * constructor; [reflexivity | constructor].
Qed.

Lemma Propagates_bind {A B} (m : M A) (k : A -> M B) :
  Propagates m -> (forall a, Propagates (k a)) -> Propagates (bind m k).
Proof.
  intros Hm Hk plan st. unfold bind.
  destruct (Hm plan st) as (new1 & T1 & M1 & O1).
  destruct (m plan st) as [[e | a] st1]; simpl in *.
  - exists new1. auto.
  - destruct (Hk a plan st1) as (new2 & T2 & M2 & O2).
    exists (new1 ++ new2). split; [|split].
    + rewrite T2, T1, app_assoc. reflexivity.
    + apply met_app; [exact M1|].
      rewrite T1, length_app in M2. exact M2.
    + destruct (fst (k a plan st1)) as [e | b]; simpl in *.
      * destruct O2 as (pre & op & -> & Q).
        exists (new1 ++ pre), op. split; [apply app_assoc|].
        apply Forall_app. split; assumption.
      * apply Forall_app. split; assumption.
Qed.

Lemma Propagates_for {A} (body : nat -> A -> M unit) (xs : list A) :
  (forall i x, Propagates (body i x)) ->
  forall i, Propagates (for_enumerate i xs body).
Proof.
  intros Hb. induction xs as [|x xs IH]; intros i; simpl.
  - apply Propagates_ret.
  - apply Propagates_bind; [apply Hb | intros _; apply IH].
Qed.

Lemma Propagates_no_grad {A} (m : M A) : Propagates m -> Propagates (no_grad m).
Proof.
  intros Hm plan st. unfold no_grad.
  specialize (Hm plan {| world := with_grad_enabled false (world st);
                         trace := trace st |}).
  destruct (m plan _) as [r st1]. exact Hm.
Qed.

End Propagation.

(** Every function of the notebook is put together from calls by sequencing,
    loops and the [no_grad] decorator. *)
Ltac propagate :=
  repeat first
    [ apply Propagates_ret
    | apply Propagates_call
    | apply Propagates_no_grad
    | apply Propagates_for; intros
    | apply Propagates_bind; [| intros]
    | match goal with
      | |- Propagates (match ?x with (_, _) => _ end) => destruct x
      | |- Propagates (if ?b then _ else _) => destruct b
      end ].

Section Notebook.

Context `{Torch}.

Lemma train_body_propagates dl i b : Propagates (train_body dl i b).
Proof. unfold train_body, train_step, next, model_call, criterion, backward,
  optimizer_step, optimizer_zero_grad, scheduler_step, print_line. propagate. Qed.

Lemma evaluate_body_propagates dl i b : Propagates (evaluate_body dl i b).
Proof. unfold evaluate_body, evaluate_step, next, model_call, criterion,
  argmax, accuracy_call, print_line. propagate. Qed.

End Notebook.

(** C7.  No failure is caught, retried, recovered from or translated:
    in [train_step], [train_epoch], [evaluate_step], [evaluate_epoch] and the
    whole workflow, under every plan of outside failures and from every
    state, an exception that a framework call raises is the exception the
    function raises, that call is the last one made, and a call the plan
    fails is recorded as raising the planned exception. *)
Theorem exceptions_propagate `{Torch}
    (input : T) (label : list nat) (dl : DataLoader) (remote : Archive) :
  Propagates (train_step input label) /\
  Propagates (train_epoch dl) /\
  Propagates (evaluate_step input label) /\
  Propagates (evaluate_epoch dl) /\
  Propagates (workflow remote).
Proof.
  assert (TE : forall d, Propagates (train_epoch d)).
  { intros d. unfold train_epoch, iter. apply Propagates_bind; [propagate|].
    intros bs. apply Propagates_for. intros i b. apply train_body_propagates. }
  assert (EE : forall d, Propagates (evaluate_epoch d)).
  { intros d. unfold evaluate_epoch, iter. apply Propagates_bind; [propagate|].
    intros bs. apply Propagates_for. intros i b. apply evaluate_body_propagates. }
  split; [|split; [|split; [|split]]].
  - unfold train_step, model_call, criterion, backward, optimizer_step,
      optimizer_zero_grad, scheduler_step. propagate.
  - apply TE.
  - unfold evaluate_step, model_call, criterion. propagate.
  - apply EE.
  - unfold workflow, cell4, cell5, cell6, cell7, cell8.
    apply Propagates_bind; [unfold CIFAR100; propagate|].
    intros [tl vl].
    apply Propagates_bind;
      [unfold construct, CrossEntropyLoss, SGD, CosineAnnealingLR; propagate|].
    intros _. apply Propagates_bind; [apply TE|].
    intros _. apply Propagates_bind; [apply EE|].
    intros _. unfold state_dict, save. propagate.
Qed.

End Failures.

(* ---------------------------------------------------------------------- *)
(** ** Which calls a function makes, and what it leaves alone *)

Module Steps.

Import NN Run.

Section Calls.

Context `{Torch}.

(** [m] makes the framework calls [ops], in this order, when it returns; a
    run that raises has made the first few of them. *)
Definition Calls {A} (m : M A) (ops : list Op) : Prop :=
  forall plan st, exists new,
    trace (snd (m plan st)) = trace st ++ new /\
    match fst (m plan st) with
    | inr _ => map fst new = ops
    | inl _ => exists rest, ops = map fst new ++ rest
    end.

Lemma Calls_ret {A} (a : A) : Calls (ret a) [].
Proof.
  intros plan st. exists []. simpl. rewrite app_nil_r. split; reflexivity.
Qed.

Lemma Calls_call {A} op (f : World -> (Exn + A) * World) : Calls (call op f) [op].
Proof.
  intros plan st. unfold call.
  destruct (plan (List.length (trace st))) as [e|].
  - exists [(op, Some e)]. simpl. split; [reflexivity|]. exists []. reflexivity.
  - destruct (f (world st)) as [[e | a] w']; eexists; simpl;
      (split; [reflexivity|]); simpl; [exists []|]; reflexivity.
Qed.

Lemma Calls_bind {A B} (m : M A) (k : A -> M B) ops1 ops2 :
  Calls m ops1 -> (forall a, Calls (k a) ops2) -> Calls (bind m k) (ops1 ++ ops2).
Proof.
  intros Hm Hk plan st. unfold bind.
  destruct (Hm plan st) as (new1 & T1 & O1).
  destruct (m plan st) as [[e | a] st1]; simpl in *.
  - exists new1. split; [exact T1|].
    destruct O1 as (rest & ->). exists (rest ++ ops2). symmetry. apply app_assoc.
  - destruct (Hk a plan st1) as (new2 & T2 & O2).
    exists (new1 ++ new2). split.
    + rewrite T2, T1, app_assoc. reflexivity.
    + rewrite map_app, O1.
      destruct (fst (k a plan st1)).
      * destruct O2 as (rest & ->). exists rest. apply app_assoc.
      * rewrite O2. reflexivity.
Qed.

Lemma Calls_no_grad {A} (m : M A) ops : Calls m ops -> Calls (no_grad m) ops.
Proof.
  intros Hm plan st. unfold no_grad.
  specialize (Hm plan {| world := with_grad_enabled false (world st);
                         trace := trace st |}).
  destruct (m plan _) as [r st1]. exact Hm.
Qed.

(** The order of a training step in the source. *)
Definition code_order : list Op :=
  [OpForward; OpCriterion; OpBackward; OpOptimizerStep; OpZeroGrad; OpSchedulerStep].

(** The order of a training step in the specification: schedule update
    before gradient reset. *)
Definition spec_order : list Op :=
  [OpForward; OpCriterion; OpBackward; OpOptimizerStep; OpSchedulerStep; OpZeroGrad].

End Calls.

(** C1, as the claim has it, fails: a training step on a one-image batch,
    run once cell 5 has set up model, optimizer and scheduler, returns after
    six calls, the gradient reset before, not after, the schedule update. *)
Lemma train_step_resets_before_scheduling :
  let run := @train_step Toy.toy [1%Z] [0] no_failure Toy.after_cell5 in
  let new := skipn (List.length (trace Toy.after_cell5)) (trace (snd run)) in
  raised (fst run) = None /\
  map fst new = code_order /\
  map fst new <> spec_order.
Proof.
  vm_compute. repeat split; discriminate.
Qed.

(** C1, amended.  Every training step makes its calls in the order forward
    pass, loss computation, gradient computation, parameter update, gradient
    reset, learning-rate schedule update: a step that returns has made
    exactly these six, and a step that raises has made the first few. *)
Theorem train_step_order `{Torch} (input : T) (label : list nat) :
  Calls (train_step input label) code_order.
Proof.
  unfold train_step, code_order.
  change [OpForward; OpCriterion; OpBackward; OpOptimizerStep; OpZeroGrad;
          OpSchedulerStep]
    with ([OpForward] ++ [OpCriterion] ++ [OpBackward] ++ [OpOptimizerStep]
          ++ [OpZeroGrad] ++ [OpSchedulerStep] ++ []).
  repeat (apply Calls_bind; [apply Calls_call | intros]).
  apply Calls_ret.
Qed.

End Steps.

(* ---------------------------------------------------------------------- *)
(** ** Frames: what a function leaves as it was *)

Module Frame.

Import NN Run.

Section Keeps.

Context `{Torch}.

(** A relation between the world before and after, kept by every step and
    blind to the gradient mode. *)
Variable R : World -> World -> Prop.
Hypothesis R_refl : forall w, R w w.
Hypothesis R_trans : forall w1 w2 w3, R w1 w2 -> R w2 w3 -> R w1 w3.
Hypothesis R_mode : forall w b, R w (with_grad_enabled b w).

Definition Keeps {A} (m : M A) : Prop :=
  forall plan st, R (world st) (world (snd (m plan st))).

Lemma Keeps_ret {A} (a : A) : Keeps (ret a).
Proof. intros plan st. apply R_refl. Qed.

Lemma Keeps_call {A} op (f : World -> (Exn + A) * World) :
  (forall w, R w (snd (f w))) -> Keeps (call op f).
Proof.
  intros Hf plan st. unfold call.
  destruct (plan (List.length (trace st))); simpl; [apply R_refl|].
  specialize (Hf (world st)). destruct (f (world st)) as [r w']. exact Hf.
Qed.

Lemma Keeps_bind {A B} (m : M A) (k : A -> M B) :
  Keeps m -> (forall a, Keeps (k a)) -> Keeps (bind m k).
Proof.
  intros Hm Hk plan st. unfold bind.
  specialize (Hm plan st).
  destruct (m plan st) as [[e | a] st1]; simpl in *; [exact Hm|].
  eapply R_trans; [exact Hm | apply Hk].
Qed.

Lemma Keeps_for {A} (body : nat -> A -> M unit) (xs : list A) :
  (forall i x, Keeps (body i x)) -> forall i, Keeps (for_enumerate i xs body).
Proof.
  intros Hb. induction xs as [|x xs IH]; intros i; simpl.
  - apply Keeps_ret.
  - apply Keeps_bind; [apply Hb | intros _; apply IH].
Qed.

Lemma Keeps_no_grad {A} (m : M A) : Keeps m -> Keeps (no_grad m).
Proof.
  intros Hm plan st. unfold no_grad.
  specialize (Hm plan {| world := with_grad_enabled false (world st);
                         trace := trace st |}).
  destruct (m plan _) as [r st1]. simpl in *.
  eapply R_trans; [apply (R_mode (world st) false)|].
  eapply R_trans; [exact Hm | apply R_mode].
Qed.

End Keeps.

Section Relations.

Context `{Torch}.

(** Same parameters: values, gradient buffers and optimizer state. *)
Definition same_parameters (w w' : World) : Prop :=
  parameters (model w') = parameters (model w).

(** Same files on disk. *)
Definition same_disk (w w' : World) : Prop := disk w' = disk w.

End Relations.

End Frame.

(* ---------------------------------------------------------------------- *)
(** ** Evaluation (cell 7) *)

Module Evaluation.

Import NN Run Steps Frame.

Section Parameters.

Context `{Torch}.

Lemma same_parameters_refl w : same_parameters w w.
Proof. reflexivity. Qed.

Lemma same_parameters_trans w1 w2 w3 :
  same_parameters w1 w2 -> same_parameters w2 w3 -> same_parameters w1 w3.
Proof. unfold same_parameters. congruence. Qed.

Lemma same_parameters_mode w b : same_parameters w (with_grad_enabled b w).
Proof. reflexivity. Qed.

Lemma model_call_keeps input : Keeps same_parameters (model_call input).
Proof.
  apply Keeps_call; [apply same_parameters_refl|].
  intros w. simpl. destruct (module_forward _ _ _ _ _ _) as [[out bs'] g'].
  reflexivity.
Qed.

Lemma criterion_keeps output label : Keeps same_parameters (criterion output label).
Proof.
  apply Keeps_call; [apply same_parameters_refl|]. intros w. reflexivity.
Qed.

Lemma evaluate_step_keeps input label :
  Keeps same_parameters (evaluate_step input label).
Proof.
  unfold evaluate_step.
  apply Keeps_no_grad;
    [apply same_parameters_trans | apply same_parameters_mode |].
  apply Keeps_bind; [apply same_parameters_trans | apply model_call_keeps |].
  intros output.
  apply Keeps_bind; [apply same_parameters_trans | apply criterion_keeps |].
  intros loss. apply Keeps_ret. apply same_parameters_refl.
Qed.

Lemma iter_keeps dl : Keeps same_parameters (iter dl).
Proof.
  apply Keeps_call; [apply same_parameters_refl|].
  intros w. simpl. destruct (batches dl (generator w)). reflexivity.
Qed.

Lemma next_keeps dl b : Keeps same_parameters (next dl b).
Proof.
  apply Keeps_call; [apply same_parameters_refl|].
  intros w. simpl.
  destruct (fetch (dataset dl) b (generator w)) as [[[items|] ds] g']; reflexivity.
Qed.

Lemma evaluate_body_keeps dl i b : Keeps same_parameters (evaluate_body dl i b).
Proof.
  unfold evaluate_body.
  apply Keeps_bind; [apply same_parameters_trans | apply next_keeps |].
  intros [input label].
  apply Keeps_bind; [apply same_parameters_trans | apply evaluate_step_keeps |].
  intros [loss output].
  apply Keeps_bind; [apply same_parameters_trans | |].
  { apply Keeps_call; [apply same_parameters_refl|]. intros w. reflexivity. }
  intros pred.
  apply Keeps_bind; [apply same_parameters_trans | |].
  { apply Keeps_call; [apply same_parameters_refl|]. intros w. reflexivity. }
  intros accuracy.
  destruct (i mod 100 =? 0).
  - apply Keeps_call; [apply same_parameters_refl|]. intros w. reflexivity.
  - apply Keeps_ret. apply same_parameters_refl.
Qed.

Lemma evaluate_epoch_keeps dl : Keeps same_parameters (evaluate_epoch dl).
Proof.
  unfold evaluate_epoch.
  apply Keeps_bind; [apply same_parameters_trans | apply iter_keeps |].
  intros bs.
  apply Keeps_for;
    [apply same_parameters_refl | apply same_parameters_trans |].
  intros i b. apply evaluate_body_keeps.
Qed.

Lemma evaluate_step_calls input label :
  Calls (evaluate_step input label) [OpForward; OpCriterion].
Proof.
  unfold evaluate_step. apply Calls_no_grad.
  change [OpForward; OpCriterion] with ([OpForward] ++ [OpCriterion] ++ []).
  repeat (apply Calls_bind; [apply Calls_call | intros]).
  apply Calls_ret.
Qed.

End Parameters.

(** C3.  An evaluation step is a forward pass and a loss computation with
    gradient tracking disabled: whatever the batch, the state and the
    failures met, it leaves every parameter as it was (value, gradient
    buffer and optimizer state) and the gradient mode as it found it; when it
    returns it has made the forward and the loss call, its output is the
    model's forward value, its loss the criterion's value on it, and neither
    carries a backward link.  A whole evaluation epoch, accuracy included,
    leaves every parameter as it was too. *)
Theorem evaluate_step_is_gradient_free `{Torch}
    (input : T) (label : list nat) (dl : DataLoader) (plan : Plan) (st : State) :
  let run := evaluate_step input label plan st in
  same_parameters (world st) (world (snd run)) /\
  grad_enabled (world (snd run)) = grad_enabled (world st) /\
  Calls (evaluate_step input label) [OpForward; OpCriterion] /\
  match fst run with
  | inr (loss, output) =>
      grad_fn output = None /\
      grad_fn loss = None /\
      value output =
        fst (fst (module_forward (ctor (model (world st)))
                    (training (model (world st)))
                    (map data (parameters (model (world st))))
                    (buffers (model (world st)))
                    (generator (world st)) input)) /\
      value loss = cross_entropy (value output) label
  | inl _ => True
  end /\
  same_parameters (world st) (world (snd (evaluate_epoch dl plan st))).
Proof.
  intros run.
  split; [apply evaluate_step_keeps|].
  split.
  { subst run. unfold evaluate_step, no_grad.
    destruct (bind _ _ plan _) as [r st1]. reflexivity. }
  split; [apply evaluate_step_calls|].
  split; [|apply evaluate_epoch_keeps].
  subst run.
  destruct (evaluate_step input label plan st) as [[e | [loss output]] st'] eqn:E;
    [exact I|].
  simpl. unfold evaluate_step in E.
  apply no_grad_inr in E. destruct E as (st1 & E & _).
  run_inv.
  apply call_inr in E0. destruct E0 as (_ & w1 & F1 & ->).
  apply call_inr in E. destruct E as (_ & w2 & F2 & _).
  simpl in F1, F2.
  destruct (module_forward _ _ _ _ _ _) as [[out bs'] g'].
  injection F1 as <- <-. injection F2 as <- <-.
  match goal with E : (loss, output) = _ |- _ => injection E as -> -> end.
  simpl. repeat split; reflexivity.
Qed.

End Evaluation.

(* ---------------------------------------------------------------------- *)
(** ** Training (cells 5 and 6) *)

Module Training.

Import NN Run Steps Frame.

Section Gradients.

Context `{Torch}.

(** Every gradient buffer is empty. *)
Definition grads_empty (w : World) : Prop :=
  Forall (fun p => grad p = None) (parameters (model w)).

(** The forward/backward cycle: the first three lines of [train_step]. *)
Definition forward_backward (input : T) (label : list nat) : M (Var * Var) :=
  (output <- model_call input ;;
   loss <- criterion output label ;;
   backward loss ;;
   ret (loss, output))%nb.

(** The rest of [train_step]. *)
Definition update (lo : Var * Var) : M (Var * Var) :=
  (optimizer_step ;;
   optimizer_zero_grad ;;
   scheduler_step ;;
   ret lo)%nb.

Lemma train_step_cycle_then_update input label plan st :
  train_step input label plan st
  = bind (forward_backward input label) update plan st.
Proof.
  unfold train_step, forward_backward, update, bind.
  destruct (model_call input plan st) as [[e | output] st1]; [reflexivity|].
  destruct (criterion output label plan st1) as [[e | loss] st2]; [reflexivity|].
  destruct (backward loss plan st2) as [[e | []] st3]; reflexivity.
Qed.

Lemma bind_assoc {A B C} (m : M A) (k : A -> M B) (h : B -> M C) plan st :
  bind (bind m k) h plan st = bind m (fun a => bind (k a) h) plan st.
Proof.
  unfold bind. destruct (m plan st) as [[e | a] st1]; reflexivity.
Qed.

(** A loop over [xs ++ ys] is the loop over [xs], then the loop over [ys]. *)
Lemma for_enumerate_app {A} (body : nat -> A -> M unit) xs ys i plan st :
  for_enumerate i (xs ++ ys) body plan st
  = bind (for_enumerate i xs body)
      (fun _ => for_enumerate (i + List.length xs) ys body) plan st.
Proof.
  revert i st. induction xs as [|x xs IH]; intros i st; simpl.
  - unfold bind, ret. rewrite Nat.add_0_r. reflexivity.
  - rewrite bind_assoc. unfold bind at 1 2.
    destruct (body i x plan st) as [[e | []] st1]; [reflexivity|].
    rewrite IH. replace (S i + List.length xs) with (i + S (List.length xs)) by lia.
    reflexivity.
Qed.

Lemma reset_all ps : Forall (fun p => grad p = None) (map reset_grad ps).
Proof.
  induction ps; simpl; constructor; [reflexivity | assumption].
Qed.

(** Into empty buffers [backward] writes the gradients of its own node, and
    nothing else. *)
Lemma accumulate_from_empty n ps i :
  Forall (fun p => grad p = None) ps ->
  map grad (accumulate_from i n ps)
  = map (fun j => Some (autograd n j)) (seq i (List.length ps)).
Proof.
  intros E. revert i. induction E as [|p ps Hp _ IH]; intros i; simpl.
  - reflexivity.
  - rewrite Hp, IH. reflexivity.
Qed.

(** Into a filled buffer it adds. *)
Lemma accumulate_filled p g0 g :
  grad p = Some g0 -> grad (accumulate p g) = Some (tensor_add g0 g).
Proof.
  intros E. unfold accumulate. simpl. rewrite E. reflexivity.
Qed.

Lemma cell5_grads_empty tl plan st st' :
  cell5 tl plan st = (inr tt, st') -> grads_empty (world st').
Proof.
  unfold cell5, construct, CrossEntropyLoss, SGD, CosineAnnealingLR.
  intros E. run_inv. call_inv.
  destruct (module_init Arch.model _) as [[ws bs] g'].
  pair_inv. unfold grads_empty. simpl.
  clear. induction ws; simpl; constructor; [reflexivity | assumption].
Qed.

Lemma train_step_grads_empty input label plan st r st' :
  train_step input label plan st = (inr r, st') -> grads_empty (world st').
Proof.
  unfold train_step, optimizer_zero_grad, scheduler_step.
  intros E. run_inv. call_inv. pair_inv.
  unfold grads_empty. simpl. apply reset_all.
Qed.

Lemma keeps_grads_empty {A} (m : M A) plan st :
  Keeps same_parameters m ->
  grads_empty (world st) -> grads_empty (world (snd (m plan st))).
Proof.
  intros K E. unfold grads_empty. rewrite (K plan st). exact E.
Qed.

Lemma train_body_grads_empty dl i b plan st st' :
  train_body dl i b plan st = (inr tt, st') -> grads_empty (world st').
Proof.
  unfold train_body, print_line. intros E. run_inv.
  match goal with
  | E : train_step _ _ _ _ = _ |- _ => apply train_step_grads_empty in E
  end.
  destruct (i mod 100 =? 0); run_inv; call_inv; pair_inv; assumption.
Qed.

Lemma loop_grads_empty dl bs i plan st st' :
  grads_empty (world st) ->
  for_enumerate i bs (train_body dl) plan st = (inr tt, st') ->
  grads_empty (world st').
Proof.
  revert i st. induction bs as [|b bs IH]; intros i st G E; simpl in E.
  - apply ret_inr in E. destruct E as [_ ->]. exact G.
  - run_inv.
    match goal with
    | E : train_body _ _ _ _ _ = (inr ?u, _) |- _ =>
        destruct u; apply train_body_grads_empty in E
    end.
    eauto.
Qed.

End Gradients.

(** C2.  In the workflow, the gradient buffer of every parameter is empty
    at the start of every forward/backward cycle: after cell 5 and any
    number [pre] of passes through the training loop, when the next batch
    has been fetched, all buffers are empty; and the cycle on that batch,
    when it returns, leaves in each buffer the gradient of this batch's
    loss alone, under the weights of this step, with nothing carried over
    from an earlier step. *)
Theorem gradients_start_empty `{Torch}
    (tl : DataLoader) (plan : Plan) (st0 st1 st2 st3 st4 : State)
    (pre post : list (list nat)) (b : list nat) (input : T) (label : list nat) :
  cell5 tl plan st0 = (inr tt, st1) ->
  iter tl plan st1 = (inr (pre ++ b :: post), st2) ->
  for_enumerate 0 pre (train_body tl) plan st2 = (inr tt, st3) ->
  next tl b plan st3 = (inr (input, label), st4) ->
  grads_empty (world st4) /\
  forall loss output st5,
    forward_backward input label plan st4 = (inr (loss, output), st5) ->
    let m := model (world st4) in
    let n := LossBackward
               (ModelBackward (ctor m) (training m) (map data (parameters m))
                  (buffers m) (generator (world st4)) input) label in
    grad_fn loss = Some n /\
    map grad (parameters (model (world st5)))
    = map (fun i => Some (autograd n i)) (seq 0 (List.length (parameters m))).
Proof.
  intros E5 Ei El En.
  assert (G4 : grads_empty (world st4)).
  { apply cell5_grads_empty in E5.
    assert (G2 : grads_empty (world st2)).
    { replace st2 with (snd (iter tl plan st1)) by (rewrite Ei; reflexivity).
      apply keeps_grads_empty; [apply Evaluation.iter_keeps | exact E5]. }
    assert (G3 : grads_empty (world st3)) by (eapply loop_grads_empty; eassumption).
    replace st4 with (snd (next tl b plan st3)) by (rewrite En; reflexivity).
    apply keeps_grads_empty; [apply Evaluation.next_keeps | exact G3]. }
  split; [exact G4|].
  intros loss output st5 E m n.
  unfold forward_backward, model_call, criterion, backward in E.
  run_inv. call_inv.
  destruct (grad_fn a0) as [n'|] eqn:Gl; [|discriminate].
  destruct (module_forward _ _ _ _ _ _) as [[out bs'] g'].
  pair_inv.
  match goal with E : (_, _) = (_, _) |- _ => injection E as -> -> end.
  simpl in Gl. simpl.
  destruct (grad_enabled (world st4)); [|discriminate].
  injection Gl as <-.
  split; [reflexivity|].
  apply accumulate_from_empty. exact G4.
Qed.

(** The second cycle of a run on ten images: the buffers hold what
    [autograd] gives for this batch of two, and no sum with the first
    step's gradients. *)
Example second_cycle_gradients :
  map grad
    (parameters
       (model (world (snd (@forward_backward Toy.toy [-37; -39]%Z [1; 0]
                             no_failure (snd Toy.second_fetch))))))
  = [Some [2%Z]; Some [3%Z]].
Proof. vm_compute. reflexivity. Qed.

(** The second training step of a run on ten images. *)
Lemma gradients_start_empty_second_step :
  grads_empty (world (snd Toy.second_fetch)) /\
  forall loss output st5,
    @forward_backward Toy.toy [-37; -39]%Z [1; 0] no_failure (snd Toy.second_fetch)
      = (inr (loss, output), st5) ->
    let m := model (world (snd Toy.second_fetch)) in
    let n := LossBackward
               (ModelBackward (ctor m) (training m) (map data (parameters m))
                  (buffers m) (generator (world (snd Toy.second_fetch)))
                  [-37; -39]%Z) [1; 0] in
    grad_fn loss = Some n /\
    map grad (parameters (model (world st5)))
    = map (fun i => Some (@autograd Toy.toy n i))
        (seq 0 (List.length (parameters m))).
Proof.
  apply (@gradients_start_empty Toy.toy Toy.tl no_failure Toy.boot
           Toy.after_cell5 Toy.after_iter Toy.after_first_step
           (snd Toy.second_fetch) [Toy.first_batch] [] Toy.second_batch);
    vm_compute; reflexivity.
Defined.

End Training.

(* ---------------------------------------------------------------------- *)
(** ** Persistence (cell 8) *)

Module Persistence.

Import NN Run Frame.

Section Uses.

Context `{Torch}.

(** Every framework call [m] makes satisfies [P]. *)
Definition Uses (P : Op -> Prop) {A} (m : M A) : Prop :=
  forall plan st, exists new,
    trace (snd (m plan st)) = trace st ++ new /\
    Forall (fun c => P (fst c)) new.

Variable P : Op -> Prop.

Lemma Uses_ret {A} (a : A) : Uses P (ret a).
Proof.
  intros plan st. exists []. simpl. rewrite app_nil_r. split; constructor.
Qed.

Lemma Uses_call {A} op (f : World -> (Exn + A) * World) :
  P op -> Uses P (call op f).
Proof.
  intros Hop plan st. unfold call.
  destruct (plan (List.length (trace st))) as [e|].
  - exists [(op, Some e)]. simpl. split; [reflexivity|].
    constructor; [exact Hop | constructor].
  - destruct (f (world st)) as [r w']. exists [(op, raised r)]. simpl.
    split; [reflexivity|]. constructor; [exact Hop | constructor].
Qed.

Lemma Uses_bind {A B} (m : M A) (k : A -> M B) :
  Uses P m -> (forall a, Uses P (k a)) -> Uses P (bind m k).
Proof.
  intros Hm Hk plan st. unfold bind.
  destruct (Hm plan st) as (new1 & T1 & U1).
  destruct (m plan st) as [[e | a] st1]; simpl in *.
  - exists new1. auto.
  - destruct (Hk a plan st1) as (new2 & T2 & U2).
    exists (new1 ++ new2). split.
    + rewrite T2, T1, app_assoc. reflexivity.
    + apply Forall_app. split; assumption.
Qed.

Lemma Uses_for {A} (body : nat -> A -> M unit) (xs : list A) :
  (forall i x, Uses P (body i x)) -> forall i, Uses P (for_enumerate i xs body).
Proof.
  intros Hb. induction xs as [|x xs IH]; intros i; simpl.
  - apply Uses_ret.
  - apply Uses_bind; [apply Hb | intros _; apply IH].
Qed.

Lemma Uses_no_grad {A} (m : M A) : Uses P m -> Uses P (no_grad m).
Proof.
  intros Hm plan st. unfold no_grad.
  specialize (Hm plan {| world := with_grad_enabled false (world st);
                         trace := trace st |}).
  destruct (m plan _) as [r st1]. exact Hm.
Qed.

End Uses.

(** Calls other than [torch.save]. *)
Definition not_save (op : Op) : Prop := forall p, op <> OpSave p.

Ltac uses :=
  repeat first
    [ apply Uses_ret
    | apply Uses_call; intros ?; discriminate
    | apply Uses_no_grad
    | apply Uses_for; intros
    | apply Uses_bind; [| intros]
    | match goal with
      | |- Uses _ (match ?x with (_, _) => _ end) => destruct x
      | |- Uses _ (if ?b then _ else _) => destruct b
      end ].

(** What a framework call does to the world, by cases on what it looks at. *)
Ltac by_cases :=
  simpl;
  repeat match goal with
  | |- context [match ?x with _ => _ end] => destruct x; simpl
  end;
  reflexivity.

Ltac keeps_disk :=
  repeat first
    [ apply Keeps_ret; intros ?; reflexivity
    | apply Keeps_call; [intros ?; reflexivity | intros ?; by_cases]
    | apply Keeps_no_grad;
        [unfold same_disk; intros; congruence | intros ? ?; reflexivity |]
    | apply Keeps_for;
        [intros ?; reflexivity | unfold same_disk; intros; congruence | intros]
    | apply Keeps_bind; [unfold same_disk; intros; congruence | | intros]
    | match goal with
      | |- Keeps _ (match ?x with (_, _) => _ end) => destruct x
      | |- Keeps _ (if ?b then _ else _) => destruct b
      end ].

Section Disk.

Context `{Torch}.

Lemma read_file_written path d f : read_file path (d ++ [(path, f)]) = Some f.
Proof.
  induction d as [|[p g] d IH]; simpl.
  - rewrite String.eqb_refl. reflexivity.
  - rewrite IH. reflexivity.
Qed.

Lemma train_epoch_keeps_disk dl : Keeps same_disk (train_epoch dl).
Proof.
  unfold train_epoch, iter, train_body, next, train_step, model_call, criterion,
    backward, optimizer_step, optimizer_zero_grad, scheduler_step, print_line.
  keeps_disk.
Qed.

Lemma evaluate_epoch_keeps_disk dl : Keeps same_disk (evaluate_epoch dl).
Proof.
  unfold evaluate_epoch, iter, evaluate_body, next, evaluate_step, model_call,
    criterion, argmax, accuracy_call, print_line.
  keeps_disk.
Qed.

Lemma cell5_keeps_disk tl : Keeps same_disk (cell5 tl).
Proof.
  unfold cell5, construct, CrossEntropyLoss, SGD, CosineAnnealingLR.
  keeps_disk.
Qed.

Lemma train_epoch_never_saves dl : Uses not_save (train_epoch dl).
Proof.
  unfold train_epoch, iter, train_body, next, train_step, model_call, criterion,
    backward, optimizer_step, optimizer_zero_grad, scheduler_step, print_line.
  uses.
Qed.

Lemma evaluate_epoch_never_saves dl : Uses not_save (evaluate_epoch dl).
Proof.
  unfold evaluate_epoch, iter, evaluate_body, next, evaluate_step, model_call,
    criterion, argmax, accuracy_call, print_line.
  uses.
Qed.

Lemma cell5_never_saves tl : Uses not_save (cell5 tl).
Proof.
  unfold cell5, construct, CrossEntropyLoss, SGD, CosineAnnealingLR.
  uses.
Qed.

(** Cell 4 writes the archive unless it is on disk already, once. *)
Lemma cell4_disk remote plan st tl vl st' :
  cell4 remote plan st = (inr (tl, vl), st') ->
  exists fetched,
    disk (world st') = disk (world st) ++ fetched /\
    (fetched = [] \/ fetched = [(archive_path "cifar100", ArchiveFile remote)]) /\
    trace st' = trace st ++ [(OpCIFAR100 "cifar100" true, None);
                             (OpCIFAR100 "cifar100" false, None)].
Proof.
  unfold cell4, CIFAR100. intros E. run_inv. call_inv. subst. simpl in *.
  rewrite <- app_assoc. simpl.
  destruct (read_file (archive_path "cifar100") (disk (world st))) as [f|] eqn:R.
  - rewrite R in F0. destruct f as [a'|]; [|discriminate]. pair_inv.
    rewrite R in F. simpl in F. rewrite R in F. pair_inv.
    exists []. rewrite app_nil_r. auto.
  - simpl in F0. rewrite read_file_written in F0. pair_inv.
    simpl in F. rewrite read_file_written in F. simpl in F.
    rewrite read_file_written in F. pair_inv.
    exists [(archive_path "cifar100", ArchiveFile remote)]. simpl. auto.
Qed.

End Disk.

(** C6.  A workflow that runs to its end has written exactly one file of
    serialized parameters, ["model.pth"], as its last action, after training
    and evaluation: the disk at the end is the disk at the start, then the
    dataset archive if it had to be fetched, then ["model.pth"] holding the
    state dict (weights and buffers) of the model as it is at the end; the
    two last calls are [state_dict] and [save], and no call before them is a
    [save]. *)
Theorem one_file_saved `{Torch} (remote : Archive) (plan : Plan) (st st' : State) :
  workflow remote plan st = (inr tt, st') ->
  exists fetched before,
    disk (world st')
    = disk (world st) ++ fetched
      ++ [("model.pth"%string,
           StateDictFile (map data (parameters (model (world st'))))
             (buffers (model (world st'))))] /\
    (fetched = [] \/ fetched = [(archive_path "cifar100", ArchiveFile remote)]) /\
    trace st'
    = trace st ++ before ++ [(OpStateDict, None); (OpSave "model.pth", None)] /\
    Forall (fun c => not_save (fst c)) before.
Proof.
  unfold workflow, cell6, cell7, cell8, state_dict, save. intros E. run_inv.
  match goal with
  | E4 : cell4 _ _ _ = _, E5 : cell5 ?tl ?p ?s1 = (_, ?s2),
    E6 : train_epoch _ _ ?s2 = (_, ?s3), E7 : evaluate_epoch ?vl _ ?s3 = _ |- _ =>
      apply cell4_disk in E4; destruct E4 as (fetched & D4 & F4 & T4);
      pose proof (cell5_keeps_disk tl p s1) as D5; rewrite E5 in D5;
      destruct (cell5_never_saves tl p s1) as (n5 & T5 & U5); rewrite E5 in T5;
      pose proof (train_epoch_keeps_disk tl p s2) as D6; rewrite E6 in D6;
      destruct (train_epoch_never_saves tl p s2) as (n6 & T6 & U6); rewrite E6 in T6;
      pose proof (evaluate_epoch_keeps_disk vl p s3) as D7; rewrite E7 in D7;
      destruct (evaluate_epoch_never_saves vl p s3) as (n7 & T7 & U7);
      rewrite E7 in T7
  end.
  call_inv. pair_inv. unfold same_disk in *. simpl in *.
  exists fetched,
    ([(OpCIFAR100 "cifar100" true, None); (OpCIFAR100 "cifar100" false, None)]
     ++ n5 ++ n6 ++ n7).
  split; [|split; [exact F4|split]].
  - rewrite D7, D6, D5, D4, <- app_assoc. reflexivity.
  - rewrite T7, T6, T5, T4, <- !app_assoc. reflexivity.
  - apply Forall_app. split.
    + repeat constructor; intros p; discriminate.
    + repeat (apply Forall_app; split); assumption.
Qed.

(** The run on ten training and three test images. *)
Lemma one_file_saved_toy_run :
  exists fetched before,
    disk (world (snd (@workflow Toy.toy Toy.remote no_failure Toy.boot)))
    = disk (world Toy.boot) ++ fetched
      ++ [("model.pth"%string,
           @StateDictFile Toy.toy
             (map data
                (parameters
                   (model (world (snd (@workflow Toy.toy Toy.remote no_failure
                                         Toy.boot))))))
             (buffers
                (model (world (snd (@workflow Toy.toy Toy.remote no_failure
                                      Toy.boot))))))] /\
    (fetched = []
     \/ fetched = [(archive_path "cifar100", @ArchiveFile Toy.toy Toy.remote)]) /\
    trace (snd (@workflow Toy.toy Toy.remote no_failure Toy.boot))
    = trace Toy.boot ++ before
      ++ [(OpStateDict, None); (OpSave "model.pth", None)] /\
    Forall (fun c => not_save (fst c)) before.
Proof.
  apply (@one_file_saved Toy.toy Toy.remote no_failure Toy.boot
           (snd (@workflow Toy.toy Toy.remote no_failure Toy.boot))).
  vm_compute. reflexivity.
Defined.

End Persistence.

(* ---------------------------------------------------------------------- *)
(** ** Datasets, batches and accuracy (cells 4 and 7) *)

Module Loading.

Import NN Run.

Section Batches.

(** The batches are the sampler's order, cut. *)
Lemma batch_sampler_concat size batch order :
  List.concat (batch_sampler size batch order) = batch ++ order.
Proof.
  revert batch. induction order as [|idx rest IH]; intros batch; simpl.
  - destruct batch; reflexivity.
  - destruct (List.length (batch ++ [idx]) =? size); simpl; rewrite IH;
      rewrite <- app_assoc; reflexivity.
Qed.

(** No batch is empty. *)
Lemma batch_sampler_nonempty size batch order :
  Forall (fun b => 0 < List.length b) (batch_sampler size batch order).
Proof.
  revert batch. induction order as [|idx rest IH]; intros batch; simpl.
  - destruct (0 <? List.length batch) eqn:E; constructor.
    + apply Nat.ltb_lt. exact E.
    + constructor.
  - destruct (List.length (batch ++ [idx]) =? size).
    + constructor; [|apply IH]. rewrite length_app. simpl. lia.
    + apply IH.
Qed.


End Batches.

Section Items.

Context `{Torch}.

Lemma getitem_self self index g : snd (fst (getitem self index g)) = self.
Proof.
  unfold getitem.
  destruct (nth_error (images self) index); [|reflexivity].
  destruct (nth_error (targets self) index); [|reflexivity].
  destruct (compose _ _ _). reflexivity.
Qed.


Lemma correct_le pred label : correct pred label <= List.length label.
Proof.
  unfold correct.
  etransitivity; [apply filter_length_le|].
  rewrite length_combine. apply Nat.le_min_r.
Qed.

End Items.





(** C8.  Fetching a dataset item is read-only and nothing is cached.  Under
    every framework, the dataset comes back from [dataset[index]] as it
    went in; a second fetch at the same index runs the transform chain
    again on the stored image, from the generator state the first fetch left
    behind, and returns the same stored label.  And the two input tensors
    need not be equal: with the notebook's chain (random crop, flips, colour
    jitter) there is a framework, a dataset and an index at which they
    differ while the label is the same. *)
Theorem getitem_is_read_only_and_fresh :
  (forall (L : Torch) (self : Dataset) (index : nat) (g : RNG),
     let first := getitem self index g in
     let second := getitem (snd (fst first)) index (snd first) in
     snd (fst first) = self /\
     snd (fst second) = self /\
     match nth_error (images self) index, nth_error (targets self) index with
     | Some img, Some target =>
         fst (fst first)
         = Some (fst (compose (transform_of self) img g), target) /\
         snd first = snd (compose (transform_of self) img g) /\
         fst (fst second)
         = Some (fst (compose (transform_of self) img (snd first)), target)
     | _, _ => fst (fst first) = None /\ fst (fst second) = None
     end) /\
  (exists (L : Torch) (self : Dataset) (index : nat) (g : RNG)
          (x1 x2 : Sample) (y : nat),
     transform_of self = transform /\
     fst (fst (getitem self index g)) = Some (x1, y) /\
     fst (fst (getitem self index (snd (getitem self index g)))) = Some (x2, y) /\
     x1 <> x2).
Proof.
  split.
  - intros L self index g first second.
    assert (S1 : snd (fst first) = self) by apply getitem_self.
    split; [exact S1|].
    subst second. rewrite S1.
    split; [apply getitem_self|].
    subst first. unfold getitem.
    destruct (nth_error (images self) index) as [img|]; [|split; reflexivity].
    destruct (nth_error (targets self) index) as [target|]; [|split; reflexivity].
    destruct (compose (transform_of self) img g) as [x1 g1]. simpl.
    destruct (compose (transform_of self) img g1) as [x2 g2]. simpl.
    repeat split; reflexivity.
  - exists Toy.toy, Toy.one_item, 0, 0, (-9)%Z, (-13)%Z, 7.
    vm_compute. repeat split; discriminate.
Qed.

End Loading.

(* ====================================================================== *)
(** * More on tensor.ipynb: views and factories in general *)
(* ====================================================================== *)

Module TensorAlgebra.

Import Tensor.

(** X1.  [torch.ones(shape)] and [torch.zeros(shape)]: a well-formed tensor of
    the shape asked for, with the fill value at every index in bounds. *)
Theorem full_everywhere (A : Type) (sh idx : list nat) (x : A) (o : nat) :
  offset sh idx = Some o ->
  well_formed (full sh x) /\ shape (full sh x) = sh /\
  item (full sh x) idx = Some x.
Proof.
  intros O. split; [apply TensorFacts.full_well_formed|].
  split; [reflexivity|].
  unfold item, full. cbn [shape stride storage].
  rewrite TensorFacts.strided_offset_contiguous, O.
  apply TensorFacts.offset_in_bounds in O.
  rewrite nth_error_repeat by exact O. reflexivity.
Qed.

Lemma full_everywhere_ones :
  well_formed cell_a /\ shape cell_a = [3; 4] /\ item cell_a [2; 3] = Some 1%Q.
Proof.
  apply (@full_everywhere Q [3; 4] [2; 3] 1%Q 11). reflexivity.
Defined.

(** X2.  Flattening reads a matrix row by row: element [i * c + j] of
    [t.flatten()] is [t[i, j]], for every well-formed [r] x [c] tensor, and
    it is there. *)
Theorem flatten_row_major (A : Type) (t : tensor A) (r c i j : nat) :
  well_formed t ->
  shape t = [r; c] ->
  i < r -> j < c ->
  item (flatten t) [i * c + j] = item t [i; j] /\
  exists x, item t [i; j] = Some x.
Proof.
  intros W S Hi Hj.
  assert (B : i * c + j < numel t).
  { unfold numel. rewrite S. simpl. nia. }
  assert (U : unravel (shape t) (i * c + j) = [i; j]).
  { rewrite S. apply TensorFacts.unravel_offset.
    apply TensorFacts.offset_matrix; assumption. }
  rewrite (@TensorFacts.item_flatten A t (i * c + j) W B), U.
  split; [reflexivity|].
  rewrite <- U. apply TensorFacts.item_unravel; assumption.
Qed.

Lemma flatten_row_major_ones :
  item (flatten cell_a) [2 * 4 + 3] = item cell_a [2; 3] /\
  exists x, item cell_a [2; 3] = Some x.
Proof.
  apply (@flatten_row_major Q cell_a 3 4 2 3);
    [split; [reflexivity | vm_compute; lia] | reflexivity | lia | lia].
Defined.

End TensorAlgebra.

(* ====================================================================== *)
(** * More on cell 2: which images [Net] accepts *)
(* ====================================================================== *)

Module NetShapes.

Import Arch.

(** A convolution of kernel 3 and stride 1 takes two off each side. *)
Lemma conv3_shape (cin cout n c h w : nat) :
  layer_shape (Conv2d cin cout 3 1) [n; c; h; w]
  = if (c =? cin) && (3 <=? h) && (3 <=? w)
    then Some [n; cout; h - 2; w - 2] else None.
Proof.
  unfold layer_shape, window.
  destruct (c =? cin); [|reflexivity].
  destruct (3 <=? h) eqn:Hh; destruct (3 <=? w) eqn:Hw; try reflexivity.
  simpl andb. cbv iota.
  apply Nat.leb_le in Hh. apply Nat.leb_le in Hw.
  change (0 <? 1) with true. cbv iota. rewrite !Nat.div_1_r.
  replace (h - 3 + 1) with (h - 2) by lia.
  replace (w - 3 + 1) with (w - 2) by lia.
  reflexivity.
Qed.

(** Max-pooling with kernel 2 halves height and width. *)
Lemma pool2_shape (n c h w : nat) :
  layer_shape (MaxPool2d 2) [n; c; h; w]
  = if (2 <=? h) && (2 <=? w) then Some [n; c; h / 2; w / 2] else None.
Proof.
  unfold layer_shape, window.
  destruct (2 <=? h) eqn:Hh; destruct (2 <=? w) eqn:Hw; try reflexivity.
  simpl andb. cbv iota. change (0 <? 2) with true. cbv iota.
  apply Nat.leb_le in Hh. apply Nat.leb_le in Hw.
  assert (D : forall x, 2 <= x -> (x - 2) / 2 + 1 = x / 2).
  { intros x Hx. replace x with ((x - 2) + 1 * 2) at 2 by lia.
    rewrite Nat.div_add by lia. reflexivity. }
  rewrite !D by assumption. reflexivity.
Qed.

Lemma relu_shape sh : layer_shape ReLU sh = Some sh.
Proof. reflexivity. Qed.

Lemma dropout_shape p sh : layer_shape (Dropout2d p) sh = Some sh.
Proof. reflexivity. Qed.

Lemma flatten1_shape n c h w :
  layer_shape (FlattenFrom 1) [n; c; h; w] = Some [n; c * (h * (w * 1))].
Proof. reflexivity. Qed.

Lemma linear_shape fin fout n x :
  layer_shape (Linear fin fout) [n; x]
  = if x =? fin then Some [n; fout] else None.
Proof. reflexivity. Qed.

(** X3.  [Net.forward] goes through exactly for batches of three-channel images
    whose height and width, less four and halved, multiply to 196 (so that
    [fc1] finds its 12544 = 64 * 196 features), as 32 x 32 images do; the
    result then has 100 scores per image.  Any other input is the
    framework's shape error. *)
Theorem Net_accepts (n c h w : nat) (out : list nat) :
  forward_shape (Net_forward Net_init) [n; c; h; w] = Some out
  <->
  c = 3 /\ 6 <= h /\ 6 <= w /\ ((h - 4) / 2) * ((w - 4) / 2) = 196 /\
  out = [n; 100].
Proof.
  unfold Net_forward, Net_init. cbn [conv1 conv2 dropout1 dropout2 fc1 fc2].
  cbn [forward_shape]. rewrite conv3_shape.
  destruct (Nat.eqb_spec c 3) as [-> | Hc];
    [| simpl; split; [discriminate | lia]].
  destruct (Nat.leb_spec 3 h) as [H3 | H3];
    [| simpl; split; [discriminate | lia]].
  destruct (Nat.leb_spec 3 w) as [W3 | W3];
    [| simpl; split; [discriminate | lia]].
  cbn [andb]. cbv iota. rewrite relu_shape, conv3_shape, Nat.eqb_refl.
  destruct (Nat.leb_spec 3 (h - 2)) as [H5 | H5];
    [| simpl; split; [discriminate | lia]].
  destruct (Nat.leb_spec 3 (w - 2)) as [W5 | W5];
    [| simpl; split; [discriminate | lia]].
  cbn [andb]. cbv iota. rewrite relu_shape.
  replace (h - 2 - 2) with (h - 4) by lia.
  replace (w - 2 - 2) with (w - 4) by lia.
  rewrite pool2_shape.
  destruct (Nat.leb_spec 2 (h - 4)) as [H6 | H6];
    [| simpl; split; [discriminate | lia]].
  destruct (Nat.leb_spec 2 (w - 4)) as [W6 | W6];
    [| simpl; split; [discriminate | lia]].
  cbn [andb]. cbv iota.
  rewrite dropout_shape, flatten1_shape, linear_shape.
  set (hp := (h - 4) / 2). set (wp := (w - 4) / 2).
  destruct (Nat.eqb_spec (64 * (hp * (wp * 1))) 12544) as [E | E];
    change 12544 with (64 * 196) in E.
  - rewrite relu_shape, dropout_shape, linear_shape, Nat.eqb_refl.
    split.
    + intros F. injection F as <-. repeat split; lia.
    + intros (_ & _ & _ & _ & ->). reflexivity.
  - split; [discriminate|]. intros (_ & _ & _ & P & _). lia.
Qed.

(** The images of CIFAR-100 are accepted; those of MNIST size are not. *)
Example Net_on_28_by_28 (n : nat) :
  forward_shape (Net_forward Net_init) [n; 3; 28; 28] = None.
Proof. reflexivity. Qed.

End NetShapes.

(* ====================================================================== *)
(** * More on cell 4: what a pass of a loader holds *)
(* ====================================================================== *)

Module Batching.

Import NN Run Loading.

Section Sampler.

(** The number of batches: what is in hand and what is to come, over the
    size, rounded up. *)
Lemma batch_sampler_count size batch order :
  List.length batch < size ->
  List.length (batch_sampler size batch order)
  = (List.length batch + List.length order + size - 1) / size.
Proof.
  revert batch. induction order as [|idx rest IH]; intros batch L; simpl.
  - rewrite Nat.add_0_r. destruct (0 <? List.length batch) eqn:E.
    + apply Nat.ltb_lt in E. simpl.
      apply Nat.div_unique with (r := List.length batch - 1); lia.
    + apply Nat.ltb_ge in E. simpl. symmetry. apply Nat.div_small. lia.
  - assert (Lb : List.length (batch ++ [idx]) = S (List.length batch)).
    { rewrite length_app. simpl. lia. }
    destruct (List.length (batch ++ [idx]) =? size) eqn:F.
    + apply Nat.eqb_eq in F. simpl List.length at 1.
      rewrite IH by (simpl; lia). simpl List.length.
      set (x := List.length rest + size - 1).
      replace (List.length batch + S (List.length rest) + size - 1)
        with (x + 1 * size) by (unfold x; lia).
      rewrite Nat.div_add by lia. replace (0 + List.length rest + size - 1) with x
        by (unfold x; lia).
      lia.
    + apply Nat.eqb_neq in F. rewrite IH by lia. f_equal. lia.
Qed.

(** No batch is longer than the size. *)
Lemma batch_sampler_at_most size batch order :
  List.length batch < size ->
  Forall (fun b => List.length b <= size) (batch_sampler size batch order).
Proof.
  revert batch. induction order as [|idx rest IH]; intros batch L; simpl.
  - destruct (0 <? List.length batch); constructor; [lia | constructor].
  - assert (Lb : List.length (batch ++ [idx]) = S (List.length batch)).
    { rewrite length_app. simpl. lia. }
    destruct (List.length (batch ++ [idx]) =? size) eqn:F.
    + apply Nat.eqb_eq in F. constructor; [lia | apply IH; simpl; lia].
    + apply Nat.eqb_neq in F. apply IH. lia.
Qed.

End Sampler.

Section Passes.

Context `{Torch}.

Lemma batches_eq dl g :
  fst (batches dl g) = batch_sampler (batch_size dl) [] (fst (sampler dl g)).
Proof.
  unfold batches. destruct (sampler dl g). reflexivity.
Qed.

(** In-range indices of a dataset whose labels are as many as its images
    are all fetched, and the labels fetched are the stored ones. *)
Lemma fetch_in_range self batch g :
  List.length (targets self) = List.length (images self) ->
  Forall (fun i => i < len self) batch ->
  exists items g',
    fetch self batch g = (Some items, self, g') /\
    map snd items = map (fun i => nth i (targets self) 0) batch.
Proof.
  intros Lt R. revert g. induction R as [|idx batch Hi _ IH]; intros g; simpl.
  - exists [], g. split; reflexivity.
  - unfold getitem. unfold len in Hi.
    destruct (nth_error (images self) idx) as [img|] eqn:I;
      [|apply nth_error_None in I; lia].
    destruct (nth_error (targets self) idx) as [target|] eqn:Tg;
      [|apply nth_error_None in Tg; lia].
    destruct (compose (transform_of self) img g) as [img' g1].
    destruct (IH g1) as (items & g2 & F & Ls). rewrite F.
    exists ((img', target) :: items), g2. split; [reflexivity|].
    simpl. rewrite Ls. f_equal. symmetry. apply nth_error_nth. exact Tg.
Qed.

End Passes.

(** X4.  [len(dataloader)] is the number of batches a pass yields, the short
    last batch included, for every loader with a positive batch size whose
    sampler orders the whole dataset. *)
Theorem len_loader_counts_batches `{Torch} (dl : DataLoader) (g : RNG) :
  batch_size dl <> 0 ->
  List.length (fst (sampler dl g)) = len (dataset dl) ->
  List.length (fst (batches dl g)) = len_loader dl.
Proof.
  intros B L. rewrite batches_eq, batch_sampler_count by (simpl; lia).
  rewrite L. unfold len_loader. reflexivity.
Qed.

Lemma len_loader_counts_batches_toy :
  List.length (fst (@batches Toy.toy Toy.tl 0)) = @len_loader Toy.toy Toy.tl.
Proof.
  apply (@len_loader_counts_batches Toy.toy Toy.tl 0).
  - discriminate.
  - reflexivity.
Defined.

(** X5.  A pass holds every item of the dataset exactly once: the batches put
    end to end are a permutation of [0 .. len - 1] (in that very order when
    the loader does not shuffle), no batch is empty and none is longer than
    the batch size; nothing is dropped when the size does not divide the
    length. *)
Theorem pass_holds_every_item_once `{Torch} (dl : DataLoader) (g : RNG) :
  batch_size dl <> 0 ->
  Permutation (fst (sampler dl g)) (seq 0 (len (dataset dl))) ->
  Permutation (List.concat (fst (batches dl g))) (seq 0 (len (dataset dl))) /\
  NoDup (List.concat (fst (batches dl g))) /\
  Forall (fun b => 0 < List.length b <= batch_size dl) (fst (batches dl g)) /\
  (shuffle dl = false ->
   List.concat (fst (batches dl g)) = seq 0 (len (dataset dl))).
Proof.
  intros B P. rewrite batches_eq, batch_sampler_concat. simpl app.
  split; [exact P|]. split.
  { eapply Permutation_NoDup; [apply Permutation_sym; exact P | apply seq_NoDup]. }
  split.
  - pose proof (batch_sampler_nonempty (batch_size dl) [] (fst (sampler dl g))) as N.
    pose proof (@batch_sampler_at_most (batch_size dl) [] (fst (sampler dl g))) as M.
    rewrite Forall_forall in *. intros b Hb. split; [apply N|apply M]; simpl;
      try assumption; lia.
  - intros S. unfold sampler. rewrite S. reflexivity.
Qed.

Lemma pass_holds_every_item_once_toy :
  Permutation (List.concat (fst (@batches Toy.toy Toy.tl 0)))
    (seq 0 (len (dataset Toy.tl))) /\
  NoDup (List.concat (fst (@batches Toy.toy Toy.tl 0))) /\
  Forall (fun b => 0 < List.length b <= batch_size Toy.tl)
    (fst (@batches Toy.toy Toy.tl 0)) /\
  (shuffle Toy.tl = false ->
   List.concat (fst (@batches Toy.toy Toy.tl 0)) = seq 0 (len (dataset Toy.tl))).
Proof.
  apply (@pass_holds_every_item_once Toy.toy Toy.tl 0).
  - discriminate.
  - change (Permutation (rev (seq 0 10)) (seq 0 10)).
    apply Permutation_sym, Permutation_rev.
Defined.

(** X6.  Fetching a batch of a pass never runs out of the dataset.  When the
    dataset has as many labels as images and the sampler orders its indices,
    [next] on any batch of the pass returns (unless the plan fails the call)
    and the label tensor holds the stored labels at the batch's indices, in
    order, untouched by the transforms. *)
Theorem next_fetches_stored_labels `{Torch}
    (dl : DataLoader) (g : RNG) (b : list nat) (plan : Plan) (st : State) :
  List.length (targets (dataset dl)) = List.length (images (dataset dl)) ->
  Permutation (fst (sampler dl g)) (seq 0 (len (dataset dl))) ->
  In b (fst (batches dl g)) ->
  plan (List.length (trace st)) = None ->
  exists input st',
    next dl b plan st
    = (inr (input, map (fun i => nth i (targets (dataset dl)) 0) b), st').
Proof.
  intros Lt P Hb Pl.
  assert (R : Forall (fun i => i < len (dataset dl)) b).
  { rewrite Forall_forall. intros i Hi.
    assert (Hc : In i (List.concat (fst (batches dl g)))).
    { apply in_concat. exists b. split; assumption. }
    rewrite batches_eq, batch_sampler_concat in Hc. simpl app in Hc.
    apply (Permutation_in _ P) in Hc. apply in_seq in Hc. lia. }
  destruct (@fetch_in_range _ (dataset dl) b (generator (world st)) Lt R)
    as (items & g' & F & Ls).
  unfold next, call. rewrite Pl, F. unfold collate. rewrite Ls.
  eexists. eexists. reflexivity.
Qed.

Lemma next_fetches_stored_labels_toy :
  exists input st',
    @next Toy.toy Toy.vl [0; 1; 2] no_failure Toy.boot
    = (inr (input,
            map (fun i => nth i (targets (dataset Toy.vl)) 0) [0; 1; 2]), st').
Proof.
  apply (@next_fetches_stored_labels Toy.toy Toy.vl 0 [0; 1; 2] no_failure Toy.boot).
  - reflexivity.
  - apply Permutation_refl.
  - left. reflexivity.
  - reflexivity.
Defined.

End Batching.

(* ====================================================================== *)
(** * More on cells 5 to 7: what the loops touch and what they leave *)
(* ====================================================================== *)

Module Modes.

Import NN Run Frame Persistence.

(** Prove [Keeps R m] for a function put together from calls, given that
    [R] is reflexive, transitive and blind to the gradient mode, and a
    tactic for what a single call does. *)
Ltac keeps_by refl trans mode side :=
  repeat first
    [ apply Keeps_ret; exact refl
    | apply Keeps_call; [exact refl | intros ?; side]
    | apply Keeps_no_grad; [exact trans | exact mode |]
    | apply Keeps_for; [exact refl | exact trans | intros]
    | apply Keeps_bind; [exact trans | | intros]
    | match goal with
      | |- Keeps _ (match ?x with (_, _) => _ end) => destruct x
      | |- Keeps _ (if ?b then _ else _) => destruct b
      end ].

Ltac cases_of_call :=
  simpl;
  repeat match goal with
  | |- context [match ?x with _ => _ end] => destruct x; simpl
  end.

Section Relations.

Context `{Torch}.

(** Same kind of model, in the same mode. *)
Definition same_mode (w w' : World) : Prop :=
  training (model w') = training (model w) /\ ctor (model w') = ctor (model w).

Lemma same_mode_refl w : same_mode w w.
Proof. split; reflexivity. Qed.

Lemma same_mode_trans w1 w2 w3 :
  same_mode w1 w2 -> same_mode w2 w3 -> same_mode w1 w3.
Proof. unfold same_mode. intuition congruence. Qed.

Lemma same_mode_mode w b : same_mode w (with_grad_enabled b w).
Proof. split; reflexivity. Qed.

(** Same optimizer and scheduler: learning rate, momentum, epoch count. *)
Definition same_optimizer (w w' : World) : Prop :=
  optimizer w' = optimizer w /\ scheduler w' = scheduler w.

Lemma same_optimizer_refl w : same_optimizer w w.
Proof. split; reflexivity. Qed.

Lemma same_optimizer_trans w1 w2 w3 :
  same_optimizer w1 w2 -> same_optimizer w2 w3 -> same_optimizer w1 w3.
Proof. unfold same_optimizer. intuition congruence. Qed.

Lemma same_optimizer_mode w b : same_optimizer w (with_grad_enabled b w).
Proof. split; reflexivity. Qed.

(** What a training step leaves alone: the disk, the output, the gradient
    mode, the kind and mode of the model, the number of its parameters, and
    the settings of optimizer and scheduler other than the current rate and
    the epoch count. *)
Definition step_frame (w w' : World) : Prop :=
  disk w' = disk w /\
  stdout w' = stdout w /\
  grad_enabled w' = grad_enabled w /\
  training (model w') = training (model w) /\
  ctor (model w') = ctor (model w) /\
  List.length (parameters (model w')) = List.length (parameters (model w)) /\
  momentum (optimizer w') = momentum (optimizer w) /\
  base_lr (scheduler w') = base_lr (scheduler w) /\
  T_max (scheduler w') = T_max (scheduler w).

Lemma step_frame_refl w : step_frame w w.
Proof. repeat split; reflexivity. Qed.

Lemma step_frame_trans w1 w2 w3 :
  step_frame w1 w2 -> step_frame w2 w3 -> step_frame w1 w3.
Proof. unfold step_frame. intuition congruence. Qed.

Lemma accumulate_from_length i n ps :
  List.length (accumulate_from i n ps) = List.length ps.
Proof.
  revert i. induction ps as [|p ps IH]; intros i; simpl; [|rewrite IH];
    reflexivity.
Qed.

(** The same world, the random generator apart. *)
Definition all_but_generator (w w' : World) : Prop :=
  model w' = model w /\
  optimizer w' = optimizer w /\
  scheduler w' = scheduler w /\
  grad_enabled w' = grad_enabled w /\
  disk w' = disk w /\
  stdout w' = stdout w.

(** The calls an evaluation may make. *)
Definition evaluation_op (op : Op) : Prop :=
  In op [OpIter; OpNext; OpForward; OpCriterion; OpArgmax; OpAccuracy; OpPrint].

Lemma train_epoch_same_mode dl : Keeps same_mode (train_epoch dl).
Proof.
  unfold train_epoch, iter, train_body, next, train_step, model_call, criterion,
    backward, optimizer_step, optimizer_zero_grad, scheduler_step, print_line.
  keeps_by same_mode_refl same_mode_trans same_mode_mode
    ltac:(cases_of_call; split; reflexivity).
Qed.

Lemma evaluate_epoch_same_mode dl : Keeps same_mode (evaluate_epoch dl).
Proof.
  unfold evaluate_epoch, iter, evaluate_body, next, evaluate_step, model_call,
    criterion, argmax, accuracy_call, print_line.
  keeps_by same_mode_refl same_mode_trans same_mode_mode
    ltac:(cases_of_call; split; reflexivity).
Qed.

Lemma cell5_mode tl plan st st' :
  cell5 tl plan st = (inr tt, st') ->
  training (model (world st')) = true /\
  ctor (model (world st')) = Arch.resnet18 false.
Proof.
  unfold cell5, construct, CrossEntropyLoss, SGD, CosineAnnealingLR.
  intros E. run_inv. call_inv.
  destruct (module_init Arch.model _) as [[ws bs] g'].
  pair_inv. split; reflexivity.
Qed.

Lemma evaluate_step_untracked input label plan st loss output st' :
  evaluate_step input label plan st = (inr (loss, output), st') ->
  grad_fn loss = None /\ grad_fn output = None.
Proof.
  unfold evaluate_step, model_call, criterion. intros E.
  apply no_grad_inr in E. destruct E as (st1 & E & _).
  run_inv. call_inv.
  destruct (module_forward _ _ _ _ _ _) as [[out bs'] g'].
  pair_inv.
  match goal with E : (loss, output) = _ |- _ => injection E as -> -> end.
  split; reflexivity.
Qed.

End Relations.

(** X7.  The notebook never calls [model.eval()].  Once cell 5 has built
    the model, it is a [resnet18] in training mode, and it still is after
    the training epoch and after the evaluation epoch, however these end:
    evaluation runs its forward passes in training mode. *)
Theorem model_stays_in_training_mode `{Torch}
    (tl vl : DataLoader) (plan : Plan) (st0 st1 : State) :
  cell5 tl plan st0 = (inr tt, st1) ->
  let st2 := snd (train_epoch tl plan st1) in
  let st3 := snd (evaluate_epoch vl plan st2) in
  (training (model (world st2)) = true /\
   ctor (model (world st2)) = Arch.resnet18 false) /\
  (training (model (world st3)) = true /\
   ctor (model (world st3)) = Arch.resnet18 false).
Proof.
  intros E st2 st3. apply cell5_mode in E. destruct E as [Tr Ct].
  destruct (train_epoch_same_mode tl plan st1) as [T2 C2].
  destruct (evaluate_epoch_same_mode vl plan st2) as [T3 C3].
  subst st2 st3. repeat split; congruence.
Qed.

Lemma model_stays_in_training_mode_toy :
  let st2 := snd (@train_epoch Toy.toy Toy.tl no_failure Toy.after_cell5) in
  let st3 := snd (@evaluate_epoch Toy.toy Toy.vl no_failure st2) in
  (training (model (world st2)) = true /\
   ctor (model (world st2)) = Arch.resnet18 false) /\
  (training (model (world st3)) = true /\
   ctor (model (world st3)) = Arch.resnet18 false).
Proof.
  apply (@model_stays_in_training_mode Toy.toy Toy.tl Toy.vl no_failure
           Toy.boot Toy.after_cell5).
  vm_compute. reflexivity.
Defined.

(** X8.  Evaluation is not free of effects on the model.  An evaluation step
    that returns leaves the buffers and the generator as the forward pass in
    the model's current mode leaves them; and there is a framework under
    which the evaluation step of the workflow, the model being in training
    mode, changes the buffers. *)
Theorem evaluate_step_moves_buffers :
  (forall (L : Torch) (input : T) (label : list nat) (plan : Plan) (st : State),
     match evaluate_step input label plan st with
     | (inr _, st') =>
         let m := model (world st) in
         let r := module_forward (ctor m) (training m) (map data (parameters m))
                    (buffers m) (generator (world st)) input in
         buffers (model (world st')) = snd (fst r) /\
         generator (world st') = snd r
     | (inl _, _) => True
     end) /\
  (exists (L : Torch) (input : T) (label : list nat) (st : State),
     training (model (world st)) = true /\
     raised (fst (evaluate_step input label no_failure st)) = None /\
     buffers (model (world (snd (evaluate_step input label no_failure st))))
     <> buffers (model (world st))).
Proof.
  split.
  - intros L input label plan st.
    destruct (evaluate_step input label plan st) as [[e | [loss output]] st'] eqn:E;
      [exact I|].
    unfold evaluate_step, model_call, criterion in E.
    apply no_grad_inr in E. destruct E as (st1 & E & ->).
    run_inv. call_inv. simpl.
    destruct (module_forward _ _ _ _ _ _) as [[out bs'] g'].
    pair_inv. split; reflexivity.
  - exists Toy.toy, [1%Z], [0], Toy.after_cell5.
    vm_compute. repeat split; discriminate.
Qed.

(** X9.  Evaluation never trains.  An evaluation epoch, however it ends,
    leaves the optimizer and the scheduler as they were (learning rate,
    momentum, epoch count), and the only framework calls it makes are
    [iter], [next], the forward pass, the criterion, [argmax], the accuracy
    expression and [print]: no [backward], no optimizer or scheduler step,
    no [zero_grad], no [save]. *)
Theorem evaluation_never_trains `{Torch} (dl : DataLoader) :
  Keeps same_optimizer (evaluate_epoch dl) /\
  Uses evaluation_op (evaluate_epoch dl).
Proof.
  unfold evaluate_epoch, iter, evaluate_body, next, evaluate_step, model_call,
    criterion, argmax, accuracy_call, print_line.
  split.
  - keeps_by same_optimizer_refl same_optimizer_trans same_optimizer_mode
      ltac:(cases_of_call; split; reflexivity).
  - repeat first
      [ apply Uses_ret
      | apply Uses_call; unfold evaluation_op; simpl; tauto
      | apply Uses_no_grad
      | apply Uses_for; intros
      | apply Uses_bind; [| intros]
      | match goal with
        | |- Uses _ (match ?x with (_, _) => _ end) => destruct x
        | |- Uses _ (if ?b then _ else _) => destruct b
        end ].
Qed.

(** X10.  The loss of an evaluation step cannot be back-propagated.  Calling
    [backward] on it raises the framework's RuntimeError (unless the plan
    fails the call otherwise) and changes nothing. *)
Theorem backward_after_evaluation_raises `{Torch}
    (input : T) (label : list nat) (plan : Plan) (st st' : State)
    (loss output : Var) (plan2 : Plan) (st2 : State) :
  evaluate_step input label plan st = (inr (loss, output), st') ->
  plan2 (List.length (trace st2)) = None ->
  backward loss plan2 st2
  = (inl RuntimeError,
     {| world := world st2;
        trace := trace st2 ++ [(OpBackward, Some RuntimeError)] |}).
Proof.
  intros E P. apply evaluate_step_untracked in E. destruct E as [G _].
  unfold backward, call. rewrite P, G. reflexivity.
Qed.

Lemma backward_after_evaluation_raises_toy :
  let run := @evaluate_step Toy.toy [1%Z] [0] no_failure Toy.after_cell5 in
  @backward Toy.toy (@Build_Var Toy.toy [5%Z] None) no_failure (snd run)
  = (inl (@RuntimeError Toy.toy),
     {| world := world (snd run);
        trace := trace (snd run) ++ [(OpBackward, Some (@RuntimeError Toy.toy))] |}).
Proof.
  apply (@backward_after_evaluation_raises Toy.toy [1%Z] [0] no_failure
           Toy.after_cell5
           (snd (@evaluate_step Toy.toy [1%Z] [0] no_failure Toy.after_cell5))
           (@Build_Var Toy.toy [5%Z] None)
           (@Build_Var Toy.toy [4%Z] None)).
  - vm_compute. reflexivity.
  - reflexivity.
Defined.

(** X11.  A training step, whether it returns or raises, writes no file, prints
    nothing, leaves the gradient mode, the kind and mode of the model and
    the number of its parameters as they were, and of optimizer and
    scheduler changes only the current rate and the epoch count. *)
Theorem train_step_frame `{Torch} (input : T) (label : list nat) :
  Keeps step_frame (train_step input label).
Proof.
  unfold train_step, model_call, criterion, backward, optimizer_step,
    optimizer_zero_grad, scheduler_step.
  keeps_by step_frame_refl step_frame_trans step_frame_refl
    ltac:(cases_of_call; unfold step_frame; simpl;
          rewrite ?length_map, ?accumulate_from_length;
          repeat split; reflexivity).
Qed.

(** X12.  An epoch over an empty dataset takes no step.  With a loader that
    does not shuffle and whose dataset has no item, [train_epoch] and
    [evaluate_epoch] return after the single call [iter]: nothing is
    printed or written, and the model, the optimizer, the scheduler and the
    gradient mode are as they were.  (Nothing is said of the random
    generator, which belongs to the framework's iterator.) *)
Theorem epoch_over_nothing `{Torch} (dl : DataLoader) (plan : Plan) (st : State) :
  len (dataset dl) = 0 ->
  shuffle dl = false ->
  plan (List.length (trace st)) = None ->
  (fst (train_epoch dl plan st) = inr tt /\
   trace (snd (train_epoch dl plan st)) = trace st ++ [(OpIter, None)] /\
   all_but_generator (world st) (world (snd (train_epoch dl plan st)))) /\
  (fst (evaluate_epoch dl plan st) = inr tt /\
   trace (snd (evaluate_epoch dl plan st)) = trace st ++ [(OpIter, None)] /\
   all_but_generator (world st) (world (snd (evaluate_epoch dl plan st)))).
Proof.
  intros L S P.
  assert (I : iter dl plan st
              = (inr [], {| world := with_generator (generator (world st)) (world st);
                            trace := trace st ++ [(OpIter, None)] |})).
  { unfold iter, call, batches, sampler. rewrite P, S, L. reflexivity. }
  unfold train_epoch, evaluate_epoch, bind. rewrite I. simpl.
  unfold all_but_generator. simpl. repeat split; reflexivity.
Qed.

Lemma epoch_over_nothing_toy :
  (fst (@train_epoch Toy.toy
          (val_loader {| images := []; targets := []; transform_of := transform |})
          no_failure Toy.boot) = inr tt /\
   trace (snd (@train_epoch Toy.toy
                 (val_loader {| images := []; targets := [];
                                transform_of := transform |})
                 no_failure Toy.boot))
   = trace Toy.boot ++ [(OpIter, None)] /\
   all_but_generator (world Toy.boot)
     (world (snd (@train_epoch Toy.toy
                    (val_loader {| images := []; targets := [];
                                   transform_of := transform |})
                    no_failure Toy.boot)))) /\
  (fst (@evaluate_epoch Toy.toy
          (val_loader {| images := []; targets := []; transform_of := transform |})
          no_failure Toy.boot) = inr tt /\
   trace (snd (@evaluate_epoch Toy.toy
                 (val_loader {| images := []; targets := [];
                                transform_of := transform |})
                 no_failure Toy.boot))
   = trace Toy.boot ++ [(OpIter, None)] /\
   all_but_generator (world Toy.boot)
     (world (snd (@evaluate_epoch Toy.toy
                    (val_loader {| images := []; targets := [];
                                   transform_of := transform |})
                    no_failure Toy.boot)))).
Proof.
  apply (@epoch_over_nothing Toy.toy
           (val_loader {| images := []; targets := []; transform_of := transform |})
           no_failure Toy.boot); reflexivity.
Defined.

End Modes.

(* ====================================================================== *)
(** * More on cell 7: the accuracy expression *)
(* ====================================================================== *)

Module Accuracy.

Import NN Run Loading.

Section Counting.

Context `{Torch}.

Lemma correct_cons p l pred label :
  correct (p :: pred) (l :: label)
  = (if p =? l then 1 else 0) + correct pred label.
Proof.
  unfold correct. simpl. destruct (p =? l); reflexivity.
Qed.

(** All positions agree exactly when the two tensors are equal. *)
Lemma correct_all pred label :
  List.length pred = List.length label ->
  (correct pred label = List.length label <-> pred = label).
Proof.
  revert label. induction pred as [|p pred IH]; intros [|l label] L;
    simpl in L; try discriminate.
  - split; reflexivity.
  - injection L as L. rewrite correct_cons. simpl List.length.
    pose proof (correct_le pred label) as Le.
    pose proof (IH label L) as I.
    destruct (Nat.eqb_spec p l) as [-> | Ne].
    + split.
      * intros E. f_equal. apply I. lia.
      * intros E. injection E as E. apply I in E. lia.
    + split; [lia | congruence].
Qed.

(** What it takes for the accuracy expression to return. *)
Lemma accuracy_of_inr pred label q :
  accuracy_of pred label = inr q ->
  List.length pred = List.length label /\
  exists n, List.length label = S n /\
            q = (Z.of_nat (correct pred label) # Pos.of_succ_nat n).
Proof.
  unfold accuracy_of.
  destruct (Nat.eqb_spec (List.length pred) (List.length label)) as [E | E];
    [|discriminate].
  destruct (List.length label) as [|n] eqn:Ln; [discriminate|].
  intros F. injection F as <-. split; [exact E|].
  exists n. split; [reflexivity|]. rewrite Pos.of_nat_succ. reflexivity.
Qed.

Lemma accuracy_of_bounds pred label q :
  accuracy_of pred label = inr q -> (0 <= q)%Q /\ (q <= 1)%Q.
Proof.
  intros E. apply accuracy_of_inr in E. destruct E as (_ & n & Ln & ->).
  pose proof (correct_le pred label) as Le. rewrite Ln in Le.
  unfold Qle. cbn [Qnum Qden]. split; lia.
Qed.

End Counting.

(** X13.  Whenever the accuracy expression returns, its value is between 0 and
    1, and it is 1 exactly when every prediction equals its label, 0
    exactly when none does.  It returns only for tensors of one size that
    are not empty. *)
Theorem accuracy_is_one_iff_all_right `{Torch} (pred label : list nat) (q : Q) :
  accuracy_of pred label = inr q ->
  List.length pred = List.length label /\ label <> [] /\
  (0 <= q)%Q /\ (q <= 1)%Q /\
  ((q == 1)%Q <-> pred = label) /\
  ((q == 0)%Q <-> correct pred label = 0).
Proof.
  intros E. pose proof (accuracy_of_bounds _ _ E) as [B0 B1].
  apply accuracy_of_inr in E. destruct E as (L & n & Ln & ->).
  split; [exact L|]. split; [intros ->; discriminate|].
  split; [exact B0|]. split; [exact B1|].
  split.
  - rewrite <- (@correct_all pred label L), Ln. unfold Qeq. cbn [Qnum Qden]. lia.
  - unfold Qeq. cbn [Qnum Qden]. lia.
Qed.

Lemma accuracy_is_one_iff_all_right_toy :
  List.length [1; 37; 2] = List.length [1; 37; 2] /\ [1; 37; 2] <> [] /\
  (0 <= 3 # 3)%Q /\ (3 # 3 <= 1)%Q /\
  ((3 # 3 == 1)%Q <-> [1; 37; 2] = [1; 37; 2]) /\
  ((3 # 3 == 0)%Q <-> correct [1; 37; 2] [1; 37; 2] = 0).
Proof.
  apply (@accuracy_is_one_iff_all_right Toy.toy [1; 37; 2] [1; 37; 2] (3 # 3)%Q).
  reflexivity.
Defined.

End Accuracy.

(* ====================================================================== *)
(** * More on cells 6 and 7: what the epochs print, and the schedule *)
(* ====================================================================== *)

Module Epochs.

Import NN Run Frame Modes Accuracy.

(** Multiples of 100 below [k]: one for every hundred begun. *)
Lemma multiples_below (k : nat) :
  List.length (filter (fun j => j mod 100 =? 0) (seq 0 k)) = (k + 99) / 100.
Proof.
  induction k as [|k IH]; [reflexivity|].
  rewrite seq_S, filter_app, length_app, IH.
  change (filter (fun j => j mod 100 =? 0) [0 + k])
    with (if k mod 100 =? 0 then [k] else []).
  pose proof (Nat.div_mod_eq k 100) as D.
  pose proof (Nat.mod_upper_bound k 100) as U.
  set (q := k / 100) in *. set (r := k mod 100) in *.
  assert (Uq : r < 100) by (apply U; lia).
  destruct (Nat.eqb_spec r 0) as [Z | NZ]; simpl List.length.
  - rewrite <- (Nat.div_unique (k + 99) 100 q 99) by lia.
    rewrite <- (Nat.div_unique (S k + 99) 100 (q + 1) 0) by lia. reflexivity.
  - rewrite <- (Nat.div_unique (k + 99) 100 (q + 1) (r - 1)) by lia.
    rewrite <- (Nat.div_unique (S k + 99) 100 (q + 1) r) by lia. lia.
Qed.

Section Lines.

Context `{Torch}.

Lemma keeps_inr R {A} (m : M A) plan st a st' :
  Keeps R m -> m plan st = (inr a, st') -> R (world st) (world st').
Proof.
  intros K E. specialize (K plan st). rewrite E in K. exact K.
Qed.

(** Sequencing, when what the first part returns is known to satisfy [Q]. *)
Lemma Keeps_bind_post (R : World -> World -> Prop) {A B}
    (m : M A) (k : A -> M B) (Q : A -> Prop) :
  (forall w1 w2 w3, R w1 w2 -> R w2 w3 -> R w1 w3) ->
  (forall plan st a st', m plan st = (inr a, st') -> Q a) ->
  Keeps R m ->
  (forall a, Q a -> Keeps R (k a)) ->
  Keeps R (bind m k).
Proof.
  intros Tr Post Km Kk plan st. unfold bind.
  pose proof (Km plan st) as K1.
  destruct (m plan st) as [[e | a] st1] eqn:E; simpl in *; [exact K1|].
  eapply Tr; [exact K1|]. apply Kk. eapply Post. exact E.
Qed.

(** Same standard output. *)
Definition same_stdout (w w' : World) : Prop := stdout w' = stdout w.

Lemma same_stdout_refl w : same_stdout w w.
Proof. reflexivity. Qed.

Lemma same_stdout_trans w1 w2 w3 :
  same_stdout w1 w2 -> same_stdout w2 w3 -> same_stdout w1 w3.
Proof. unfold same_stdout. congruence. Qed.

Lemma same_stdout_mode w b : same_stdout w (with_grad_enabled b w).
Proof. reflexivity. Qed.

(** A printed line is in range: an accuracy, if it has one, is in [0, 1]. *)
Definition line_in_range (l : Line) : Prop :=
  match l with
  | LossLine _ => True
  | LossAccuracyLine _ q => (0 <= q)%Q /\ (q <= 1)%Q
  end.

(** If every line printed so far is in range, so is every line after. *)
Definition lines_stay_in_range (w w' : World) : Prop :=
  Forall line_in_range (stdout w) -> Forall line_in_range (stdout w').

Lemma lines_refl w : lines_stay_in_range w w.
Proof. intros F. exact F. Qed.

Lemma lines_trans w1 w2 w3 :
  lines_stay_in_range w1 w2 -> lines_stay_in_range w2 w3 ->
  lines_stay_in_range w1 w3.
Proof. unfold lines_stay_in_range. auto. Qed.

Lemma lines_mode w b : lines_stay_in_range w (with_grad_enabled b w).
Proof. intros F. exact F. Qed.

Lemma same_stdout_lines w w' : same_stdout w w' -> lines_stay_in_range w w'.
Proof. unfold same_stdout, lines_stay_in_range. intros ->. auto. Qed.

Ltac silent :=
  keeps_by same_stdout_refl same_stdout_trans same_stdout_mode
    ltac:(cases_of_call; reflexivity).

Lemma iter_silent dl : Keeps same_stdout (iter dl).
Proof. unfold iter. silent. Qed.

Lemma next_silent dl b : Keeps same_stdout (next dl b).
Proof. unfold next. silent. Qed.

Lemma train_step_silent input label : Keeps same_stdout (train_step input label).
Proof.
  unfold train_step, model_call, criterion, backward, optimizer_step,
    optimizer_zero_grad, scheduler_step. silent.
Qed.

Lemma evaluate_step_silent input label :
  Keeps same_stdout (evaluate_step input label).
Proof. unfold evaluate_step, model_call, criterion. silent. Qed.

Lemma argmax_silent output : Keeps same_stdout (argmax output).
Proof. unfold argmax. silent. Qed.

Lemma accuracy_call_silent pred label : Keeps same_stdout (accuracy_call pred label).
Proof. unfold accuracy_call. silent. Qed.

Lemma accuracy_call_post pred label plan st q st' :
  accuracy_call pred label plan st = (inr q, st') -> (0 <= q)%Q /\ (q <= 1)%Q.
Proof.
  unfold accuracy_call. intros E. call_inv.
  destruct (accuracy_of pred label) as [e | q'] eqn:A; [discriminate|].
  pair_inv. eapply accuracy_of_bounds. exact A.
Qed.

Lemma Keeps_weaken (R R' : World -> World -> Prop) {A} (m : M A) :
  (forall w w', R w w' -> R' w w') -> Keeps R m -> Keeps R' m.
Proof. intros W K plan st. apply W, K. Qed.

(** One more line exactly at the indices that are multiples of 100. *)
Lemma train_body_prints dl i b plan st st' :
  train_body dl i b plan st = (inr tt, st') ->
  List.length (stdout (world st'))
  = List.length (stdout (world st)) + (if i mod 100 =? 0 then 1 else 0).
Proof.
  unfold train_body. intros E. run_inv.
  match goal with
  | E1 : next _ _ _ _ = _, E2 : train_step _ _ _ _ = _ |- _ =>
      eapply keeps_inr in E1; [|apply next_silent];
      eapply keeps_inr in E2; [|apply train_step_silent]
  end.
  unfold same_stdout in *.
  destruct (i mod 100 =? 0).
  - unfold print_line in *. call_inv. pair_inv. simpl.
    rewrite length_app. simpl. congruence.
  - run_inv. rewrite Nat.add_0_r. congruence.
Qed.

Lemma evaluate_body_prints dl i b plan st st' :
  evaluate_body dl i b plan st = (inr tt, st') ->
  List.length (stdout (world st'))
  = List.length (stdout (world st)) + (if i mod 100 =? 0 then 1 else 0).
Proof.
  unfold evaluate_body. intros E. run_inv.
  match goal with
  | E1 : next _ _ _ _ = _, E2 : evaluate_step _ _ _ _ = _,
    E3 : argmax _ _ _ = _, E4 : accuracy_call _ _ _ _ = _ |- _ =>
      eapply keeps_inr in E1; [|apply next_silent];
      eapply keeps_inr in E2; [|apply evaluate_step_silent];
      eapply keeps_inr in E3; [|apply argmax_silent];
      eapply keeps_inr in E4; [|apply accuracy_call_silent]
  end.
  unfold same_stdout in *.
  destruct (i mod 100 =? 0).
  - unfold print_line in *. call_inv. pair_inv. simpl.
    rewrite length_app. simpl. congruence.
  - run_inv. rewrite Nat.add_0_r. congruence.
Qed.

Lemma loop_prints (body : nat -> list nat -> M unit) bs :
  (forall i b plan st st',
     body i b plan st = (inr tt, st') ->
     List.length (stdout (world st'))
     = List.length (stdout (world st)) + (if i mod 100 =? 0 then 1 else 0)) ->
  forall i plan st st',
    for_enumerate i bs body plan st = (inr tt, st') ->
    List.length (stdout (world st'))
    = List.length (stdout (world st))
      + List.length (filter (fun j => j mod 100 =? 0) (seq i (List.length bs))).
Proof.
  intros Hb. induction bs as [|b bs IH]; intros i plan st st' E; simpl in E.
  - run_inv. simpl. lia.
  - run_inv.
    match goal with
    | E1 : body _ _ _ _ = (inr ?u, _), E2 : for_enumerate _ _ _ _ _ = _ |- _ =>
        destruct u; apply Hb in E1; apply IH in E2; rewrite E2, E1
    end.
    cbn [List.length seq filter]. destruct (i mod 100 =? 0); cbn [List.length]; lia.
Qed.

Lemma iter_inr dl plan st bs st' :
  iter dl plan st = (inr bs, st') ->
  bs = fst (batches dl (generator (world st))) /\
  same_stdout (world st) (world st') /\
  same_optimizer (world st) (world st').
Proof.
  unfold iter. intros E. call_inv.
  destruct (batches dl (generator (world st))) as [bs' g'].
  pair_inv. repeat split; reflexivity.
Qed.

End Lines.

(** X14.  An epoch prints one line for every hundred batches begun.  A
    training or an evaluation epoch that completes has added to the output
    as many lines as there are multiples of 100 below the number of batches
    of the pass, which is that number plus 99, over 100 (63 lines for 6250
    batches, 13 for 1250). *)
Theorem epoch_prints_every_hundredth `{Torch}
    (dl : DataLoader) (plan : Plan) (st st' : State) :
  train_epoch dl plan st = (inr tt, st') \/
  evaluate_epoch dl plan st = (inr tt, st') ->
  List.length (stdout (world st'))
  = List.length (stdout (world st))
    + (List.length (fst (batches dl (generator (world st)))) + 99) / 100.
Proof.
  intros [E | E]; [unfold train_epoch in E | unfold evaluate_epoch in E];
    run_inv;
    match goal with
    | E1 : iter _ _ _ = _, E2 : for_enumerate _ _ _ _ _ = _ |- _ =>
        apply iter_inr in E1; destruct E1 as (-> & S1 & _);
        unfold same_stdout in S1; rewrite <- S1, <- multiples_below;
        revert E2; apply loop_prints
    end.
  - apply train_body_prints.
  - apply evaluate_body_prints.
Qed.

Lemma epoch_prints_every_hundredth_toy :
  List.length
    (stdout (world (snd (@train_epoch Toy.toy Toy.tl no_failure Toy.after_cell5))))
  = List.length (stdout (world Toy.after_cell5))
    + (List.length
         (fst (@batches Toy.toy Toy.tl (generator (world Toy.after_cell5)))) + 99)
      / 100.
Proof.
  apply (@epoch_prints_every_hundredth Toy.toy Toy.tl no_failure Toy.after_cell5).
  left. vm_compute. reflexivity.
Defined.

(** X15.  Every accuracy an evaluation epoch prints lies between 0 and 1,
    however the epoch ends and whatever the framework computes: if the lines
    of the output were in range before, they are after. *)
Theorem printed_accuracies_in_range `{Torch} (dl : DataLoader) :
  Keeps lines_stay_in_range (evaluate_epoch dl).
Proof.
  unfold evaluate_epoch.
  apply Keeps_bind; [exact lines_trans | |].
  { eapply Keeps_weaken; [exact same_stdout_lines | apply iter_silent]. }
  intros bs. apply Keeps_for; [exact lines_refl | exact lines_trans |].
  intros i b. unfold evaluate_body.
  apply Keeps_bind; [exact lines_trans | |].
  { eapply Keeps_weaken; [exact same_stdout_lines | apply next_silent]. }
  intros [input label].
  apply Keeps_bind; [exact lines_trans | |].
  { eapply Keeps_weaken; [exact same_stdout_lines | apply evaluate_step_silent]. }
  intros [loss output].
  apply Keeps_bind; [exact lines_trans | |].
  { eapply Keeps_weaken; [exact same_stdout_lines | apply argmax_silent]. }
  intros pred.
  apply Keeps_bind_post with (Q := fun q => (0 <= q)%Q /\ (q <= 1)%Q).
  - exact lines_trans.
  - apply accuracy_call_post.
  - eapply Keeps_weaken; [exact same_stdout_lines | apply accuracy_call_silent].
  - intros q Hq. destruct (i mod 100 =? 0).
    + unfold print_line. apply Keeps_call; [exact lines_refl|].
      intros w F. simpl. apply Forall_app. split; [exact F|].
      constructor; [exact Hq | constructor].
    + apply Keeps_ret. exact lines_refl.
Qed.

End Epochs.

(* ====================================================================== *)
(** * More on cells 5 and 6: the schedule over the epoch *)
(* ====================================================================== *)

Module Schedule.

Import NN Run Frame Modes Batching Epochs.

Section Counting.

Context `{Torch}.

(** A training step that returns has counted one epoch of the schedule. *)
Lemma train_step_counts input label plan st r st' :
  train_step input label plan st = (inr r, st') ->
  scheduler (world st')
  = {| base_lr := base_lr (scheduler (world st));
       T_max := T_max (scheduler (world st));
       last_epoch := S (last_epoch (scheduler (world st))) |} /\
  momentum (optimizer (world st')) = momentum (optimizer (world st)).
Proof.
  unfold train_step, model_call, criterion, backward, optimizer_step,
    optimizer_zero_grad, scheduler_step.
  intros E. run_inv. call_inv.
  match goal with
  | F : match grad_fn ?l with _ => _ end = _ |- _ =>
      destruct (grad_fn l); [|discriminate]
  end.
  destruct (module_forward _ _ _ _ _ _) as [[out bs'] g'].
  pair_inv. split; reflexivity.
Qed.

Lemma next_same_optimizer dl b : Keeps same_optimizer (next dl b).
Proof.
  unfold next.
  keeps_by same_optimizer_refl same_optimizer_trans same_optimizer_mode
    ltac:(cases_of_call; split; reflexivity).
Qed.

Lemma print_same_optimizer l : Keeps same_optimizer (print_line l).
Proof.
  unfold print_line.
  keeps_by same_optimizer_refl same_optimizer_trans same_optimizer_mode
    ltac:(cases_of_call; split; reflexivity).
Qed.

Lemma train_body_counts dl i b plan st st' :
  train_body dl i b plan st = (inr tt, st') ->
  scheduler (world st')
  = {| base_lr := base_lr (scheduler (world st));
       T_max := T_max (scheduler (world st));
       last_epoch := S (last_epoch (scheduler (world st))) |} /\
  momentum (optimizer (world st')) = momentum (optimizer (world st)).
Proof.
  unfold train_body. intros E. run_inv.
  match goal with
  | E1 : next _ _ _ _ = _, E2 : train_step _ _ _ _ = _ |- _ =>
      eapply keeps_inr in E1; [|apply next_same_optimizer];
      apply train_step_counts in E2; destruct E1 as [O1 S1]; destruct E2 as [S2 M2]
  end.
  assert (Last : same_optimizer (world st1) (world st')).
  { destruct (i mod 100 =? 0).
    - eapply keeps_inr; [apply print_same_optimizer | eassumption].
    - run_inv. apply same_optimizer_refl. }
  destruct Last as [O3 S3]. rewrite S3, S2, S1, O3, M2, O1. split; reflexivity.
Qed.

Lemma loop_counts dl bs i plan st st' :
  for_enumerate i bs (train_body dl) plan st = (inr tt, st') ->
  last_epoch (scheduler (world st'))
  = last_epoch (scheduler (world st)) + List.length bs /\
  T_max (scheduler (world st')) = T_max (scheduler (world st)) /\
  base_lr (scheduler (world st')) = base_lr (scheduler (world st)) /\
  momentum (optimizer (world st')) = momentum (optimizer (world st)).
Proof.
  revert i st. induction bs as [|b bs IH]; intros i st E; simpl in E.
  - run_inv. simpl. repeat split; lia.
  - run_inv.
    match goal with
    | E1 : train_body _ _ _ _ _ = (inr ?u, _),
      E2 : for_enumerate _ _ _ _ _ = _ |- _ =>
        destruct u; apply train_body_counts in E1; apply IH in E2;
        destruct E1 as [S1 M1]; destruct E2 as (L2 & T2 & B2 & M2)
    end.
    rewrite L2, T2, B2, M2, S1, M1. simpl. repeat split; lia.
Qed.

Lemma cell5_settings tl plan st st' :
  cell5 tl plan st = (inr tt, st') ->
  scheduler (world st')
  = {| base_lr := float_literal (1 # 1000); T_max := len_loader tl;
       last_epoch := 0 |} /\
  optimizer (world st')
  = {| lr := float_literal (1 # 1000); momentum := float_literal (9 # 10) |}.
Proof.
  unfold cell5, construct, CrossEntropyLoss, SGD, CosineAnnealingLR.
  intros E. run_inv. call_inv.
  destruct (module_init Arch.model _) as [[ws bs] g'].
  pair_inv. split; reflexivity.
Qed.

End Counting.

(** X16.  The schedule ends with the epoch.  Cell 5 sets [T_max] to
    [len(train_loader)] and the loop steps the scheduler once per batch: when
    the training epoch completes, the scheduler has counted exactly [T_max]
    epochs, one for each batch of the pass, its base rate still 0.001 and
    the optimizer's momentum still 0.9. *)
Theorem schedule_ends_with_the_epoch `{Torch}
    (tl : DataLoader) (plan : Plan) (st0 st1 st2 : State) :
  cell5 tl plan st0 = (inr tt, st1) ->
  cell6 tl plan st1 = (inr tt, st2) ->
  batch_size tl <> 0 ->
  List.length (fst (sampler tl (generator (world st1)))) = len (dataset tl) ->
  last_epoch (scheduler (world st2)) = T_max (scheduler (world st2)) /\
  T_max (scheduler (world st2)) = len_loader tl /\
  len_loader tl = List.length (fst (batches tl (generator (world st1)))) /\
  base_lr (scheduler (world st2)) = float_literal (1 # 1000) /\
  momentum (optimizer (world st2)) = float_literal (9 # 10).
Proof.
  intros E5 E6 B L. apply cell5_settings in E5. destruct E5 as [S5 O5].
  unfold cell6, train_epoch in E6. run_inv.
  match goal with
  | E1 : iter _ _ _ = _, E2 : for_enumerate _ _ _ _ _ = _ |- _ =>
      apply iter_inr in E1; destruct E1 as (-> & _ & [Oi Si]);
      apply loop_counts in E2; destruct E2 as (L2 & T2 & B2 & M2)
  end.
  assert (N : List.length (fst (batches tl (generator (world st1)))) = len_loader tl).
  { rewrite batches_eq, batch_sampler_count by (simpl; lia).
    rewrite L. reflexivity. }
  rewrite L2, T2, B2, M2, Si, Oi, S5, O5, N. simpl. repeat split; reflexivity.
Qed.

Lemma schedule_ends_with_the_epoch_toy :
  let st2 := snd (@cell6 Toy.toy Toy.tl no_failure Toy.after_cell5) in
  last_epoch (scheduler (world st2)) = T_max (scheduler (world st2)) /\
  T_max (scheduler (world st2)) = @len_loader Toy.toy Toy.tl /\
  @len_loader Toy.toy Toy.tl
  = List.length
      (fst (@batches Toy.toy Toy.tl (generator (world Toy.after_cell5)))) /\
  base_lr (scheduler (world st2)) = @float_literal Toy.toy (1 # 1000) /\
  momentum (optimizer (world st2)) = @float_literal Toy.toy (9 # 10).
Proof.
  apply (@schedule_ends_with_the_epoch Toy.toy Toy.tl no_failure Toy.boot
           Toy.after_cell5).
  - vm_compute. reflexivity.
  - vm_compute. reflexivity.
  - discriminate.
  - reflexivity.
Defined.

End Schedule.

(* ====================================================================== *)
(** * More on cells 4 and 8: the files *)
(* ====================================================================== *)

Module Files.

Import NN Run Frame Persistence Epochs.

Section Disk.

Context `{Torch}.



End Disk.





End Files.

(* ====================================================================== *)
(** * More on cell 6: what a training step does to a parameter *)
(* ====================================================================== *)

Module Updates.

Import NN Run Training.

Section Step.

Context `{Torch}.

Lemma accumulate_from_nth n ps k i p :
  nth_error ps i = Some p ->
  nth_error (accumulate_from k n ps) i = Some (accumulate p (autograd n (k + i))).
Proof.
  revert k i. induction ps as [|q ps IH]; intros k [|i] E; simpl in *;
    try discriminate.
  - injection E as ->. rewrite Nat.add_0_r. reflexivity.
  - rewrite (IH (S k) i E). do 3 f_equal. lia.
Qed.

End Step.

(** X19.  A training step is one SGD update of every parameter with the
    gradient of this batch.  Started with empty gradient buffers, a step
    that returns has replaced each parameter by what [sgd_update] gives for
    its value, the gradient of this batch's loss in it, and its momentum
    buffer, under the learning rate in force before the step (the scheduler
    moves the rate only afterwards, for the next step); the gradient buffer
    is empty again. *)
Theorem train_step_updates_every_parameter `{Torch}
    (input : T) (label : list nat) (plan : Plan) (st st' : State)
    (loss output : Var) (i : nat) (p : Param) :
  grads_empty (world st) ->
  train_step input label plan st = (inr (loss, output), st') ->
  nth_error (parameters (model (world st))) i = Some p ->
  let m := model (world st) in
  let n := LossBackward
             (ModelBackward (ctor m) (training m) (map data (parameters m))
                (buffers m) (generator (world st)) input) label in
  let o := optimizer (world st) in
  let s := scheduler (world st) in
  let u := sgd_update (lr o) (momentum o) (data p) (autograd n i)
             (momentum_buffer p) in
  nth_error (parameters (model (world st'))) i
  = Some {| data := fst u; grad := None; momentum_buffer := Some (snd u) |} /\
  lr (optimizer (world st'))
  = cosine_annealing (base_lr s) (T_max s) (S (last_epoch s)) (lr o).
Proof.
  intros G E Hp m n o s u.
  assert (Gp : grad p = None).
  { unfold grads_empty in G. rewrite Forall_forall in G. apply G.
    eapply nth_error_In. exact Hp. }
  unfold train_step, model_call, criterion, backward, optimizer_step,
    optimizer_zero_grad, scheduler_step in E.
  run_inv. call_inv.
  match goal with
  | F : match grad_fn ?l with _ => _ end = _ |- _ =>
      destruct (grad_fn l) as [n'|] eqn:Gl; [|discriminate]
  end.
  destruct (module_forward _ _ _ _ _ _) as [[out bs'] g'].
  pair_inv.
  match goal with E : (loss, output) = _ |- _ => injection E as -> -> end.
  simpl in Gl. destruct (grad_enabled (world st)); [|discriminate].
  injection Gl as <-. simpl. split; [|reflexivity].
  rewrite !nth_error_map.
  rewrite (accumulate_from_nth _ _ 0 _ Hp). simpl.
  unfold sgd_param, accumulate. simpl. rewrite Gp.
  subst u n m o. simpl.
  destruct (sgd_update _ _ _ _ _). reflexivity.
Qed.

Lemma train_step_updates_every_parameter_toy :
  let st := Toy.after_cell5 in
  let m := model (world st) in
  let n := LossBackward
             (ModelBackward (ctor m) (training m) (map data (parameters m))
                (buffers m) (generator (world st)) [1%Z]) [0] in
  let o := optimizer (world st) in
  let s := scheduler (world st) in
  let p := @Build_Param Toy.toy [1%Z] None None in
  let u := @sgd_update Toy.toy (lr o) (momentum o) (data p) (@autograd Toy.toy n 0)
             (momentum_buffer p) in
  nth_error
    (parameters
       (model (world (snd (@train_step Toy.toy [1%Z] [0] no_failure st))))) 0
  = Some (@Build_Param Toy.toy (fst u) None (Some (snd u))) /\
  lr (optimizer (world (snd (@train_step Toy.toy [1%Z] [0] no_failure st))))
  = @cosine_annealing Toy.toy (base_lr s) (T_max s) (S (last_epoch s)) (lr o).
Proof.
  eapply (@train_step_updates_every_parameter Toy.toy [1%Z] [0] no_failure
            Toy.after_cell5
            (snd (@train_step Toy.toy [1%Z] [0] no_failure Toy.after_cell5))
            _ _ 0 (@Build_Param Toy.toy [1%Z] None None)).
  - vm_compute. repeat constructor.
  - vm_compute. reflexivity.
  - reflexivity.
Defined.

End Updates.

(* ====================================================================== *)
(** * Cells 2 and 5: which model the workflow runs *)
(* ====================================================================== *)

Module ModelChoice.

Import NN Run Frame Persistence Modes.

Section Constructors.

Context `{Torch}.

(** The model constructors a run has called, in order. *)
Definition constructors (tr : list (Op * option Exn)) : list Arch.ModelCtor :=
  flat_map (fun c => match fst c with OpModel m => [m] | _ => [] end) tr.

(** Calls other than the construction of a model. *)
Definition not_constructor (op : Op) : Prop := forall m, op <> OpModel m.

(** A module as its constructor leaves it. *)
Definition fresh (m : Arch.ModelCtor) (g : RNG) : Module_ :=
  {| ctor := m;
     parameters :=
       map (fun x => {| data := x; grad := None; momentum_buffer := None |})
         (fst (fst (module_init m g)));
     buffers := snd (fst (module_init m g));
     training := true |}.

Lemma constructors_app tr1 tr2 :
  constructors (tr1 ++ tr2) = constructors tr1 ++ constructors tr2.
Proof. apply flat_map_app. Qed.

Lemma constructors_none tr :
  Forall (fun c => not_constructor (fst c)) tr -> constructors tr = [].
Proof.
  induction 1 as [|[op e] tr N _ IH]; [reflexivity|].
  simpl in *. rewrite IH. destruct op; try reflexivity.
  contradiction (N m). reflexivity.
Qed.

Lemma train_epoch_constructs_nothing dl : Uses not_constructor (train_epoch dl).
Proof.
  unfold train_epoch, iter, train_body, next, train_step, model_call, criterion,
    backward, optimizer_step, optimizer_zero_grad, scheduler_step, print_line.
  uses.
Qed.

Lemma evaluate_epoch_constructs_nothing dl :
  Uses not_constructor (evaluate_epoch dl).
Proof.
  unfold evaluate_epoch, iter, evaluate_body, next, evaluate_step, model_call,
    criterion, argmax, accuracy_call, print_line.
  uses.
Qed.

(** Cell 5 makes four calls, the first being the one constructor call, of
    [resnet18(pretrained=False)], and binds [model] to its fresh module. *)
Lemma cell5_constructs tl plan st st' :
  cell5 tl plan st = (inr tt, st') ->
  trace st' = trace st ++ [(OpModel (Arch.resnet18 false), None);
                           (OpCrossEntropyLoss, None); (OpSGD, None);
                           (OpCosineAnnealingLR, None)] /\
  model (world st') = fresh (Arch.resnet18 false) (generator (world st)).
Proof.
  unfold cell5, construct, CrossEntropyLoss, SGD, CosineAnnealingLR, fresh.
  intros E. run_inv. call_inv. change Arch.model with (Arch.resnet18 false) in *.
  destruct (module_init (Arch.resnet18 false) _) as [[ws bs] g'].
  pair_inv. simpl. rewrite <- !app_assoc. split; reflexivity.
Qed.

(** Cell 8 saves the state dict of [model] as it stands, and leaves it. *)
Lemma cell8_saves plan st st' :
  cell8 plan st = (inr tt, st') ->
  trace st' = trace st ++ [(OpStateDict, None); (OpSave "model.pth", None)] /\
  model (world st') = model (world st) /\
  read_file "model.pth" (disk (world st'))
  = Some (StateDictFile (map data (parameters (model (world st))))
            (buffers (model (world st)))).
Proof.
  unfold cell8, state_dict, save. intros E. run_inv. call_inv. pair_inv.
  simpl. rewrite <- app_assoc, read_file_written. repeat split; reflexivity.
Qed.

End Constructors.

(** C4, as the claim has it, fails.  On a run of the whole workflow that
    returns, the only model constructed is [resnet18(pretrained=False)]: it
    is what [model] is bound to at the end, not [Net], and it returns 1000
    scores per image, not 100. *)
Lemma workflow_model_is_not_Net :
  fst (@workflow Toy.toy Toy.remote no_failure Toy.boot) = inr tt /\
  constructors (trace (snd (@workflow Toy.toy Toy.remote no_failure Toy.boot)))
  = [Arch.resnet18 false] /\
  ctor (model (world (snd (@workflow Toy.toy Toy.remote no_failure Toy.boot))))
  <> Arch.Net_ctor /\
  Arch.num_classes
    (ctor (model (world (snd (@workflow Toy.toy Toy.remote no_failure Toy.boot)))))
  <> Some 100.
Proof.
  vm_compute. repeat split; discriminate.
Qed.

(** C4, amended.  The class [Net] is the described feed-forward function:
    two convolutions, three rectifiers, one max-pooling, two dropouts and
    two fully-connected layers, taking a batch of 3x32x32 images to 100
    scores per image.  But a workflow that runs to its end never constructs
    it: cell 5 makes the run's one constructor call,
    [models.resnet18(pretrained=False)], and binds [model] to the fresh
    module; the training epoch and the evaluation epoch run on that model
    and leave a [resnet18] wherever they stop; and the state dict cell 8
    saves is that model's. *)
Theorem workflow_runs_resnet18 `{Torch}
    (remote : Archive) (plan : Plan) (st st' : State) :
  workflow remote plan st = (inr tt, st') ->
  ((forall n,
      Arch.forward_shape (Arch.Net_forward Arch.Net_init) [n; 3; 32; 32]
      = Some [n; 100]) /\
   Arch.count Arch.is_conv (Arch.Net_forward Arch.Net_init) = 2 /\
   Arch.count Arch.is_relu (Arch.Net_forward Arch.Net_init) = 3 /\
   Arch.count Arch.is_pool (Arch.Net_forward Arch.Net_init) = 1 /\
   Arch.count Arch.is_dropout (Arch.Net_forward Arch.Net_init) = 2 /\
   Arch.count Arch.is_linear (Arch.Net_forward Arch.Net_init) = 2 /\
   List.length (Arch.Net_forward Arch.Net_init) = 11 /\
   Arch.num_classes Arch.Net_ctor = Some 100) /\
  exists tl vl st4 st5 st6 st7 new,
    cell4 remote plan st = (inr (tl, vl), st4) /\
    cell5 tl plan st4 = (inr tt, st5) /\
    train_epoch tl plan st5 = (inr tt, st6) /\
    evaluate_epoch vl plan st6 = (inr tt, st7) /\
    cell8 plan st7 = (inr tt, st') /\
    trace st' = trace st ++ new /\
    constructors new = [Arch.resnet18 false] /\
    model (world st5) = fresh (Arch.resnet18 false) (generator (world st4)) /\
    (forall p,
       ctor (model (world (snd (train_epoch tl p st5)))) = Arch.resnet18 false) /\
    (forall p,
       ctor (model (world (snd (evaluate_epoch vl p st6)))) = Arch.resnet18 false) /\
    ctor (model (world st')) = Arch.resnet18 false /\
    Arch.num_classes (ctor (model (world st'))) = Some 1000 /\
    read_file "model.pth" (disk (world st'))
    = Some (StateDictFile (map data (parameters (model (world st'))))
              (buffers (model (world st')))).
Proof.
  intros E. split; [repeat split; reflexivity|].
  unfold workflow, cell6, cell7 in E. run_inv.
  repeat match goal with u : unit |- _ => destruct u end.
  match goal with
  | E4 : cell4 _ _ _ = (inr (?tl, ?vl), ?s4), E5 : cell5 _ _ _ = (_, ?s5),
    E6 : train_epoch _ _ _ = (_, ?s6), E7 : evaluate_epoch _ _ _ = (_, ?s7),
    E8 : cell8 _ _ = _ |- _ =>
      pose proof E4 as T4; apply cell4_disk in T4;
      destruct T4 as (fetched & _ & _ & T4);
      pose proof E5 as T5; apply cell5_constructs in T5; destruct T5 as (T5 & M5);
      destruct (train_epoch_constructs_nothing tl plan s5) as (n6 & T6 & U6);
      rewrite E6 in T6;
      destruct (evaluate_epoch_constructs_nothing vl plan s6) as (n7 & T7 & U7);
      rewrite E7 in T7;
      pose proof E8 as T8; apply cell8_saves in T8; destruct T8 as (T8 & M8 & R8);
      assert (C6 : forall p,
                ctor (model (world (snd (train_epoch tl p s5))))
                = Arch.resnet18 false)
        by (intros p; destruct (train_epoch_same_mode tl p s5) as [_ C];
            rewrite C, M5; reflexivity);
      assert (C7 : forall p,
                ctor (model (world (snd (evaluate_epoch vl p s6))))
                = Arch.resnet18 false)
        by (intros p; destruct (evaluate_epoch_same_mode vl p s6) as [_ C];
            rewrite C; specialize (C6 plan); rewrite E6 in C6; exact C6);
      pose proof (C7 plan) as C8; rewrite E7 in C8; simpl in C8, T6, T7;
      exists tl, vl, s4, s5, s6, s7,
        ([(OpCIFAR100 "cifar100" true, None); (OpCIFAR100 "cifar100" false, None)]
         ++ [(OpModel (Arch.resnet18 false), None); (OpCrossEntropyLoss, None);
             (OpSGD, None); (OpCosineAnnealingLR, None)]
         ++ n6 ++ n7 ++ [(OpStateDict, None); (OpSave "model.pth", None)])
  end.
  split; [assumption|]. split; [assumption|]. split; [assumption|].
  split; [assumption|]. split; [assumption|].
  split; [rewrite T8, T7, T6, T5, T4, <- !app_assoc; reflexivity|].
  split.
  { rewrite !constructors_app, (constructors_none U6), (constructors_none U7).
    reflexivity. }
  split; [exact M5|]. split; [exact C6|]. split; [exact C7|].
  rewrite M8, C8. repeat split. exact R8.
Qed.

(** The run on ten training and three test images. *)
Lemma workflow_runs_resnet18_toy_run :
  ((forall n,
      Arch.forward_shape (Arch.Net_forward Arch.Net_init) [n; 3; 32; 32]
      = Some [n; 100]) /\
   Arch.count Arch.is_conv (Arch.Net_forward Arch.Net_init) = 2 /\
   Arch.count Arch.is_relu (Arch.Net_forward Arch.Net_init) = 3 /\
   Arch.count Arch.is_pool (Arch.Net_forward Arch.Net_init) = 1 /\
   Arch.count Arch.is_dropout (Arch.Net_forward Arch.Net_init) = 2 /\
   Arch.count Arch.is_linear (Arch.Net_forward Arch.Net_init) = 2 /\
   List.length (Arch.Net_forward Arch.Net_init) = 11 /\
   Arch.num_classes Arch.Net_ctor = Some 100) /\
  exists tl vl st4 st5 st6 st7 new,
    @cell4 Toy.toy Toy.remote no_failure Toy.boot = (inr (tl, vl), st4) /\
    @cell5 Toy.toy tl no_failure st4 = (inr tt, st5) /\
    @train_epoch Toy.toy tl no_failure st5 = (inr tt, st6) /\
    @evaluate_epoch Toy.toy vl no_failure st6 = (inr tt, st7) /\
    @cell8 Toy.toy no_failure st7
    = (inr tt, snd (@workflow Toy.toy Toy.remote no_failure Toy.boot)) /\
    trace (snd (@workflow Toy.toy Toy.remote no_failure Toy.boot))
    = trace Toy.boot ++ new /\
    constructors new = [Arch.resnet18 false] /\
    model (world st5)
    = @fresh Toy.toy (Arch.resnet18 false) (generator (world st4)) /\
    (forall p,
       ctor (model (world (snd (@train_epoch Toy.toy tl p st5))))
       = Arch.resnet18 false) /\
    (forall p,
       ctor (model (world (snd (@evaluate_epoch Toy.toy vl p st6))))
       = Arch.resnet18 false) /\
    ctor (model (world (snd (@workflow Toy.toy Toy.remote no_failure Toy.boot))))
    = Arch.resnet18 false /\
    Arch.num_classes
      (ctor (model (world (snd (@workflow Toy.toy Toy.remote no_failure
                                  Toy.boot)))))
    = Some 1000 /\
    read_file "model.pth"
      (disk (world (snd (@workflow Toy.toy Toy.remote no_failure Toy.boot))))
    = Some (@StateDictFile Toy.toy
              (map data
                 (parameters
                    (model (world (snd (@workflow Toy.toy Toy.remote no_failure
                                          Toy.boot))))))
              (buffers
                 (model (world (snd (@workflow Toy.toy Toy.remote no_failure
                                       Toy.boot)))))).
Proof.
  apply (@workflow_runs_resnet18 Toy.toy Toy.remote no_failure Toy.boot
           (snd (@workflow Toy.toy Toy.remote no_failure Toy.boot))).
  vm_compute. reflexivity.
Defined.

End ModelChoice.
